(** * A task store persisted with pickle: model and properties

    Shallow embedding of [finalproject.py]: the [Task] entity, the [Tasks]
    store with its backing file, the command line [main], and the
    properties its specification states about identifiers, completion,
    deletion, listing, sorting and persistence, followed by further
    properties of the same code.

    Python objects are references.  [Task] instances live in a heap indexed
    by locations, and the store's [tasks] attribute is a list of locations,
    so that "the same task" is meaningful across operations and the lists
    returned by [list_tasks] and [generate_report] share the store's
    objects.  [datetime.now()] is an input of the operations that read the
    clock. *)

From Stdlib Require Import ZArith Ascii String Sorting.Sorted.
From stdpp Require Import gmap strings list fin_maps sorting pretty.

Local Open Scope Z_scope.

(** ** datetime *)

Module Datetime.

(** A naive [datetime.datetime], as the tuple of fields Python compares. *)
Record datetime := mkDatetime {
  year : Z; month : Z; day : Z;
  hour : Z; minute : Z; second : Z; microsecond : Z
}.

#[global] Instance datetime_eq_dec : EqDecision datetime.
Proof. solve_decision. Defined.

Definition fields (d : datetime) : list Z :=
  [year d; month d; day d; hour d; minute d; second d; microsecond d].

(** Comparison of tuples of integers, first difference decides. *)
Fixpoint lex_compare (a b : list Z) : comparison :=
  match a, b with
  | [], [] => Eq
  | [], _ :: _ => Lt
  | _ :: _, [] => Gt
  | x :: a', y :: b' =>
      match x ?= y with
      | Eq => lex_compare a' b'
      | c => c
      end
  end.

Definition compare (a b : datetime) : comparison :=
  lex_compare (fields a) (fields b).

Definition lt (a b : datetime) : Prop := compare a b = Lt.

(** [datetime.max] *)
Definition max : datetime := mkDatetime 9999 12 31 23 59 59 999999.

Definition is_leap (y : Z) : bool :=
  (y mod 4 =? 0) && (negb (y mod 100 =? 0) || (y mod 400 =? 0)).

Definition days_in_month (y m : Z) : Z :=
  if m =? 2 then (if is_leap y then 29 else 28)
  else if (m =? 4) || (m =? 6) || (m =? 9) || (m =? 11) then 30
  else 31.

(** The range check of the [datetime(year, month, day)] constructor;
    [None] stands for its [ValueError]. *)
Definition of_date (y m d : Z) : option datetime :=
  if (1 <=? y) && (y <=? 9999) && (1 <=? m) && (m <=? 12)
     && (1 <=? d) && (d <=? days_in_month y m)
  then Some (mkDatetime y m d 0 0 0 0)
  else None.

(** *** [datetime.strptime(s, '%m/%d/%Y')] on ASCII text

    The format is compiled to the regular expression
    [(1[0-2]|0[1-9]|[1-9])/(3[0-1]|[1-2]\d|0[1-9]|[1-9]| [1-9])/(\d\d\d\d)];
    the alternatives of a group are tried in order, the match must
    consume the whole text, and the three numbers must form a date. *)

Definition code (c : ascii) : Z := Z.of_N (N_of_ascii c).
Definition in_range (lo hi : Z) (c : ascii) : bool :=
  (lo <=? code c) && (code c <=? hi).
Definition is_digit : ascii -> bool := in_range 48 57.
Definition is_char (k : Z) (c : ascii) : bool := code c =? k.
Definition digit (c : ascii) : Z := if is_digit c then code c - 48 else 0.

(** One alternative of two characters, resp. one character: the number
    read and the text left, or nothing when it does not match. *)
Definition alt2 (p1 p2 : ascii -> bool) (cs : list ascii)
  : list (Z * list ascii) :=
  match cs with
  | c1 :: c2 :: r =>
      if p1 c1 && p2 c2 then [(10 * digit c1 + digit c2, r)] else []
  | _ => []
  end.

Definition alt1 (p : ascii -> bool) (cs : list ascii)
  : list (Z * list ascii) :=
  match cs with
  | c :: r => if p c then [(digit c, r)] else []
  | [] => []
  end.

Definition month_alts (cs : list ascii) : list (Z * list ascii) :=
  alt2 (is_char 49) (in_range 48 50) cs
  ++ alt2 (is_char 48) (in_range 49 57) cs
  ++ alt1 (in_range 49 57) cs.

Definition day_alts (cs : list ascii) : list (Z * list ascii) :=
  alt2 (is_char 51) (in_range 48 49) cs
  ++ alt2 (in_range 49 50) is_digit cs
  ++ alt2 (is_char 48) (in_range 49 57) cs
  ++ alt1 (in_range 49 57) cs
  ++ alt2 (is_char 32) (in_range 49 57) cs.

Definition slash (cs : list ascii) : option (list ascii) :=
  match cs with
  | c :: r => if is_char 47 c then Some r else None
  | [] => None
  end.

(** Four digits, then the end of the text. *)
Definition year_end (cs : list ascii) : option Z :=
  match cs with
  | [a; b; c; d] =>
      if is_digit a && is_digit b && is_digit c && is_digit d
      then Some (1000 * digit a + 100 * digit b + 10 * digit c + digit d)
      else None
  | _ => None
  end.

(** First success among the alternatives, as the backtracking matcher
    finds it. *)
Fixpoint first_some {A B} (f : A -> option B) (l : list A) : option B :=
  match l with
  | [] => None
  | x :: r => match f x with Some y => Some y | None => first_some f r end
  end.

Definition match_mdY (cs : list ascii) : option (Z * Z * Z) :=
  first_some (fun '(m, r1) =>
    match slash r1 with
    | None => None
    | Some r2 =>
        first_some (fun '(d, r3) =>
          match slash r3 with
          | None => None
          | Some r4 =>
              match year_end r4 with
              | Some y => Some (m, d, y)
              | None => None
              end
          end) (day_alts r2)
    end) (month_alts cs).

(** [None] stands for the [ValueError] of [strptime]. *)
Definition strptime_mdY (s : string) : option datetime :=
  match match_mdY (list_ascii_of_string s) with
  | Some (m, d, y) => of_date y m d
  | None => None
  end.

End Datetime.

Import Datetime (datetime).

(** ** timedelta: the difference of two datetimes *)

Module Timedelta.
Import Datetime.

Record t := mk { days : Z; seconds : Z; microseconds : Z }.

(** [timedelta(days, seconds, microseconds)] on integers: microseconds
    are carried into seconds and seconds into days, with floor division,
    so that [0 <= seconds < 86400] and [0 <= microseconds < 1000000]. *)
Definition make (d s us : Z) : t :=
  let s' := s + us / 1000000 in
  mk (d + s' / 86400) (s' mod 86400) (us mod 1000000).

(** Number of days before January 1st of [year]. *)
Definition days_before_year (year : Z) : Z :=
  let y := year - 1 in y * 365 + y / 4 - y / 100 + y / 400.

(** Number of days of the year before the first day of each month, in a
    year that is not leap; index 0 is not a month. *)
Definition DAYS_BEFORE_MONTH : list Z :=
  [-1; 0; 31; 59; 90; 120; 151; 181; 212; 243; 273; 304; 334].

Definition days_before_month (year month : Z) : Z :=
  default 0 (DAYS_BEFORE_MONTH !! Z.to_nat month)
  + (if (2 <? month) && is_leap year then 1 else 0).

(** [toordinal]: January 1st of year 1 is day 1. *)
Definition toordinal (d : datetime) : Z :=
  days_before_year (year d) + days_before_month (year d) (month d) + day d.

(** [a - b] on naive datetimes.  Two valid datetimes are less than
    3652059 days apart, within the range of [timedelta]. *)
Definition sub (a b : datetime) : t :=
  make (toordinal a - toordinal b)
       ((second a + minute a * 60 + hour a * 3600)
        - (second b + minute b * 60 + hour b * 3600))
       (microsecond a - microsecond b).

(** The fields of a datetime are in the ranges its constructor checks. *)
Definition valid (d : datetime) : Prop :=
  1 <= year d <= 9999 /\ 1 <= month d <= 12 /\
  1 <= day d <= days_in_month (year d) (month d) /\
  0 <= hour d < 24 /\ 0 <= minute d < 60 /\ 0 <= second d < 60 /\
  0 <= microsecond d < 1000000.

(** Microseconds since the midnight before January 1st of year 1. *)
Definition to_microseconds (d : datetime) : Z :=
  ((toordinal d * 86400)
   + (second d + minute d * 60 + hour d * 3600)) * 1000000
  + microsecond d.

End Timedelta.

(** ** Text of numbers and dates: [str], format specs and [strftime] *)

Module Format.
Import Datetime.

(** [str(n)] of an integer. *)
Definition str (n : Z) : string := pretty n.

Definition digit_char (n : Z) : ascii := ascii_of_N (Z.to_N (48 + n)).

(** A number below 100, resp. 10000, in two, resp. four, digits. *)
Definition pad2 (n : Z) : string :=
  String (digit_char (n / 10)) (String (digit_char (n mod 10)) EmptyString).

Definition pad4 (n : Z) : string :=
  pad2 (n / 100) +:+ pad2 (n mod 100).

Fixpoint spaces (n : nat) : string :=
  match n with
  | O => EmptyString
  | S n' => String " " (spaces n')
  end.

(** The format spec [<w]: the text, then spaces up to width [w]. *)
Definition ljust (w : nat) (s : string) : string :=
  s +:+ spaces (w - String.length s).

(** [d.strftime('%m/%d/%Y')], the year in four digits.  Some C libraries
    write a year below 1000 without its leading zeros; what is stated
    about this text is stated for years from 1000 on. *)
Definition strftime_mdY (d : datetime) : string :=
  pad2 (month d) +:+ "/" +:+ pad2 (day d) +:+ "/" +:+ pad4 (year d).

(** [weekday()]: Monday is 0. *)
Definition weekday (d : datetime) : Z := (Timedelta.toordinal d + 6) mod 7.

Definition day_abbr (w : Z) : string :=
  default EmptyString
    (["Mon"; "Tue"; "Wed"; "Thu"; "Fri"; "Sat"; "Sun"] !! Z.to_nat w).

Definition month_abbr (m : Z) : string :=
  default EmptyString
    ([EmptyString; "Jan"; "Feb"; "Mar"; "Apr"; "May"; "Jun"; "Jul"; "Aug";
      "Sep"; "Oct"; "Nov"; "Dec"] !! Z.to_nat m).

(** [d.strftime('%a %b %d %H:%M:%S %Z %Y')] in the C locale; [%Z] of a
    naive datetime is empty. *)
Definition strftime_full (d : datetime) : string :=
  day_abbr (weekday d) +:+ " " +:+ month_abbr (month d) +:+ " "
  +:+ pad2 (day d) +:+ " "
  +:+ pad2 (hour d) +:+ ":" +:+ pad2 (minute d) +:+ ":" +:+ pad2 (second d)
  +:+ " " +:+ " " +:+ pad4 (year d).

End Format.

(** ** Text: [str.lower] and the [in] operator on ASCII strings *)

Module Text.

Definition lower_char (c : ascii) : ascii :=
  let n := N_of_ascii c in
  if ((65 <=? n) && (n <=? 90))%N then ascii_of_N (n + 32) else c.

Fixpoint lower (s : string) : string :=
  match s with
  | EmptyString => EmptyString
  | String c r => String (lower_char c) (lower r)
  end.

Fixpoint starts_with (sub s : string) : bool :=
  match sub, s with
  | EmptyString, _ => true
  | String _ _, EmptyString => false
  | String a sub', String b s' =>
      if decide (a = b) then starts_with sub' s' else false
  end.

(** [sub in s]: [sub] occurs in [s] at some position. *)
Fixpoint str_in (sub s : string) : bool :=
  starts_with sub s ||
  match s with
  | EmptyString => false
  | String _ s' => str_in sub s'
  end.

(** Text of ASCII characters only.  On such text [str.lower] changes the
    letters A to Z and nothing else, [\d] is one of the digits 0 to 9, and
    the length is the number of characters. *)
Definition is_ascii_char (c : ascii) : bool := (N_of_ascii c <? 128)%N.

Fixpoint is_ascii (s : string) : bool :=
  match s with
  | EmptyString => true
  | String c r => is_ascii_char c && is_ascii r
  end.




End Text.

(** ** Exceptions *)

Inductive exn := ValueError | UnpicklingError.

Inductive outcome (A : Type) :=
| Ok (a : A)
| Raise (e : exn).
Arguments Ok {A} a.
Arguments Raise {A} e.

(** ** class Task *)

Module Task.

Record t := mk {
  task_id : Z;
  name : string;
  priority : Z;
  created : datetime;
  due_date : option datetime;
  completed : option datetime
}.

#[global] Instance t_eq_dec : EqDecision t.
Proof. solve_decision. Defined.

(** Truth value of the [due_date] argument: [None] and the empty string
    are false. *)
Definition truthy (due : option string) : bool :=
  match due with
  | Some (String _ _) => true
  | _ => false
  end.

(** [Task.__init__]; [now] is the value of [datetime.now()]. *)
Definition init (now : datetime) (task_id : Z) (name : string)
    (priority : Z) (due : option string) : outcome t :=
  if truthy due then
    match Datetime.strptime_mdY (default EmptyString due) with
    | Some d => Ok (mk task_id name priority now (Some d) None)
    | None => Raise ValueError
    end
  else Ok (mk task_id name priority now None None).

Definition mark_complete (now : datetime) (task : t) : t :=
  mk (task_id task) (name task) (priority task) (created task)
     (due_date task) (Some now).

Definition is_completed (task : t) : bool :=
  match completed task with Some _ => true | None => false end.

(** The sort key [(t.due_date or datetime.max, -t.priority)]. *)
Definition sort_key (task : t) : datetime * Z :=
  (default Datetime.max (due_date task), - priority task).

(** [<] on the key tuples. *)
Definition key_ltb (a b : datetime * Z) : bool :=
  match Datetime.compare a.1 b.1 with
  | Lt => true
  | Eq => a.2 <? b.2
  | Gt => false
  end.

(** The key as one tuple of integers. *)
Definition key_fields (k : datetime * Z) : list Z :=
  Datetime.fields k.1 ++ [k.2].

#[global] Instance inhabited : Inhabited t :=
  populate (mk 0 EmptyString 0 (Datetime.mkDatetime 1 1 1 0 0 0 0) None None).

(** [age]: the days of [datetime.now() - self.created]. *)
Definition age (now : datetime) (task : t) : Z :=
  Timedelta.days (Timedelta.sub now (created task)).

End Task.

(** ** [list.sort(key=...)]

    Python's sort is stable and compares keys with [<] only; on a total
    preorder of keys every such sort returns the same list.  It is modelled
    by insertion, an element going before the first one whose key is not
    smaller than its own. *)

Section PySort.
Context {A K : Type} (key : A -> K) (ltb : K -> K -> bool).

Fixpoint insert_by (x : A) (l : list A) : list A :=
  match l with
  | [] => [x]
  | y :: r =>
      if ltb (key y) (key x) then y :: insert_by x r else x :: y :: r
  end.

Definition sort_by (l : list A) : list A := foldr insert_by [] l.

(** [x] may stand before [y]: the key of [y] is not smaller. *)
Definition key_le (x y : A) : Prop := ltb (key y) (key x) = false.
End PySort.

(** ** pickle

    [pickle.dump] and [pickle.load] are the library's; the store relies on
    [load] giving back what [dump] wrote.  [None] stands for the exception
    [load] raises on bytes it cannot decode.  Files that decode to
    something other than a list of tasks are outside the model. *)

Class Pickle := {
  blob : Type;
  pickle_dump : list Task.t -> blob;
  pickle_load : blob -> option (list Task.t);
  pickle_load_dump : forall ts, pickle_load (pickle_dump ts) = Some ts
}.

(** ** class Tasks *)

Definition loc := nat.

Module Tasks.
Section WithPickle.
Context {pk : Pickle}.

(** The store object ([file_path], [tasks]) together with what it reads
    and writes: the heap of [Task] objects and the file system. *)
Record state := mkState {
  file_path : string;
  tasks : list loc;
  heap : gmap loc Task.t;
  fs : gmap string blob
}.

Definition deref (s : state) (l : loc) : Task.t := heap s !!! l.

(** The tasks of the store, in store order, as values. *)
Definition values (s : state) : list Task.t := deref s <$> tasks s.

(** [_load_tasks] *)
Definition load_tasks (path : string) (files : gmap string blob)
  : outcome (list Task.t) :=
  match files !! path with
  | Some b =>
      match pickle_load b with
      | Some ts => Ok ts
      | None => Raise UnpicklingError
      end
  | None => Ok []
  end.

(** Allocation of the loaded tasks as fresh objects. *)
Definition alloc_all (ts : list Task.t) : gmap loc Task.t :=
  map_seq 0 ts.

(** [Tasks.__init__] *)
Definition init (path : string) (files : gmap string blob)
  : outcome state :=
  match load_tasks path files with
  | Ok ts => Ok (mkState path (seq 0 (length ts)) (alloc_all ts) files)
  | Raise e => Raise e
  end.

(** [save_tasks] *)
Definition save_tasks (s : state) : state :=
  mkState (file_path s) (tasks s) (heap s)
    (<[file_path s := pickle_dump (values s)]> (fs s)).

(** [add_task] *)
Definition add_task (now : datetime) (name : string) (priority : Z)
    (due : option string) (s : state) : outcome Z * state :=
  let task_id := Z.of_nat (length (tasks s)) + 1 in
  match Task.init now task_id name priority due with
  | Raise e => (Raise e, s)
  | Ok task =>
      let l := fresh (dom (heap s)) in
      let s1 := mkState (file_path s) (tasks s ++ [l])
                  (<[l := task]> (heap s)) (fs s) in
      (Ok task_id, save_tasks s1)
  end.

(** [delete_task] *)
Definition delete_task (task_id : Z) (s : state) : state :=
  let kept := filter (fun l => Task.task_id (deref s l) <> task_id)
                (tasks s) in
  save_tasks (mkState (file_path s) kept (heap s) (fs s)).

(** [mark_complete]: the loop stops at the first task with the id. *)
Definition mark_complete (now : datetime) (task_id : Z) (s : state)
  : bool * state :=
  match list_find (fun l => Task.task_id (deref s l) = task_id) (tasks s) with
  | Some (_, l) =>
      let h := <[l := Task.mark_complete now (deref s l)]> (heap s) in
      (true, save_tasks (mkState (file_path s) (tasks s) h (fs s)))
  | None => (false, s)
  end.

Definition matches (query : list string) (task : Task.t) : bool :=
  existsb (fun q => Text.str_in (Text.lower q) (Text.lower (Task.name task)))
    query.

Definition sort_tasks (s : state) (ls : list loc) : list loc :=
  sort_by (fun l => Task.sort_key (deref s l)) Task.key_ltb ls.

(** [list_tasks]; [if query:] is false for [None] and for the empty
    list. *)
Definition list_tasks (query : option (list string)) (s : state)
  : list loc :=
  let tasks_to_list :=
    filter (fun l => Task.is_completed (deref s l) = false) (tasks s) in
  let tasks_to_list :=
    match query with
    | Some (q :: qs) =>
        filter (fun l => matches (q :: qs) (deref s l) = true) tasks_to_list
    | _ => tasks_to_list
    end in
  sort_tasks s tasks_to_list.

(** [generate_report]: sorts the store's own list and returns it. *)
Definition generate_report (s : state) : list loc * state :=
  let sorted := sort_tasks s (tasks s) in
  (sorted, mkState (file_path s) sorted (heap s) (fs s)).

(** An empty store on a file system without the backing file. *)
Definition empty (path : string) (files : gmap string blob) : state :=
  mkState path [] ∅ files.

(** The operations of the store, and a store run through a sequence of
    them, each with the clock reading of its call. *)
Inductive op :=
| AddTask (name : string) (priority : Z) (due : option string)
| DeleteTask (task_id : Z)
| MarkComplete (task_id : Z)
| ListTasks (query : option (list string))
| GenerateReport.

Definition step (now : datetime) (o : op) (s : state) : state :=
  match o with
  | AddTask name priority due => (add_task now name priority due s).2
  | DeleteTask task_id => delete_task task_id s
  | MarkComplete task_id => (mark_complete now task_id s).2
  | ListTasks _ => s
  | GenerateReport => (generate_report s).2
  end.

(** The calls of [add_task] that return: no due-date text, an empty one,
    or one that [strptime] accepts. *)
Definition add_succeeds (o : op) : Prop :=
  match o with
  | AddTask _ _ due =>
      if Task.truthy due
      then is_Some (Datetime.strptime_mdY (default EmptyString due))
      else True
  | _ => False
  end.

Definition run (ops : list (datetime * op)) (s : state) : state :=
  foldl (fun s '(now, o) => step now o s) s ops.

(** *** Vocabulary of the statements *)

(** [sub] occurs in [s]. *)
Definition contains (s sub : string) : Prop :=
  exists pre post, s = pre +:+ sub +:+ post.

(** Some term of the query occurs in the name, case ignored. *)
Definition name_matches (query : list string) (task : Task.t) : Prop :=
  exists q, q ∈ query /\
    contains (Text.lower (Task.name task)) (Text.lower q).

(** The tasks a listing selects: open, and matching the query when terms
    are given. *)
Definition selected (query : option (list string)) (task : Task.t) : Prop :=
  Task.completed task = None /\
  match query with
  | Some (q :: qs) => name_matches (q :: qs) task
  | _ => True
  end.

(** [a] may stand before [b] in a listing: earlier due date, a due date
    against none, or the same due date and a priority at least as high. *)
Definition listed_before (a b : Task.t) : Prop :=
  match Task.due_date a, Task.due_date b with
  | Some x, Some y =>
      Datetime.lt x y \/ (x = y /\ Task.priority b <= Task.priority a)
  | Some _, None => True
  | None, Some _ => False
  | None, None => Task.priority b <= Task.priority a
  end.

(** Tasks with the same due date and priority. *)
Definition tied (s : state) (due : option datetime) (priority : Z)
    (l : loc) : Prop :=
  Task.due_date (deref s l) = due /\ Task.priority (deref s l) = priority.

#[global] Instance tied_dec s due priority l :
  Decision (tied s due priority l).
Proof. unfold tied. solve_decision. Defined.

(** Every due date of the store is earlier than [datetime.max], as the
    dates [strptime] produces are. *)
Definition due_dates_before_max (s : state) : Prop :=
  forall l d, l ∈ tasks s -> Task.due_date (deref s l) = Some d ->
    Datetime.lt d Datetime.max.

(** The ids of the store, in store order. *)
Definition ids (s : state) : list Z := Task.task_id <$> values s.





(** No object of the heap has a due date at or after [datetime.max]. *)
Definition heap_dues_before_max (s : state) : Prop :=
  forall l t d, heap s !! l = Some t -> Task.due_date t = Some d ->
    Datetime.lt d Datetime.max.

(** The store refers to allocated objects only. *)
Definition well_formed (s : state) : Prop :=
  forall l, l ∈ tasks s -> is_Some (heap s !! l).

(** Every task of the store is an allocated object, and none is in the
    list twice. *)
Definition no_sharing (s : state) : Prop :=
  well_formed s /\ NoDup (tasks s).

(** What [_load_tasks] would read from the store's file. *)
Definition on_disk (s : state) : outcome (list Task.t) :=
  load_tasks (file_path s) (fs s).

(** The loop of [mark_complete] on a sequence of task values: the first
    task with the id is completed, the others are kept. *)
Fixpoint mark_first (now : datetime) (task_id : Z) (ts : list Task.t)
  : list Task.t :=
  match ts with
  | [] => []
  | t :: r =>
      if decide (Task.task_id t = task_id)
      then Task.mark_complete now t :: r
      else t :: mark_first now task_id r
  end.

(** The operations other than [generate_report]. *)
Definition not_report (o : op) : Prop :=
  match o with GenerateReport => False | _ => True end.

(** The calls of [mark_complete]. *)
Definition is_mark_complete (o : op) : Prop :=
  match o with MarkComplete _ => True | _ => False end.

End WithPickle.
End Tasks.

(** ** A reference serializer

    For running the store on concrete inputs: a file holds either a dumped
    task list or bytes that [pickle.load] cannot decode. *)

Inductive file_content :=
| Pickled (ts : list Task.t)
| Garbage (bytes : list Byte.byte).

#[global] Instance reference_pickle : Pickle := {|
  blob := file_content;
  pickle_dump := Pickled;
  pickle_load b := match b with Pickled ts => Some ts | Garbage _ => None end;
  pickle_load_dump ts := eq_refl
|}.

(** ** Concrete stores *)

Definition todo : string := ".todo.pickle".

Definition clock (h : Z) : datetime := Datetime.mkDatetime 2024 12 1 h 0 0 0.

Definition fresh_store : Tasks.state := Tasks.empty todo ∅.

(** Three tasks: due 1/1/2025 with priority 1, due 1/1/2025 with priority
    3, and no due date with priority 3. *)
Definition sort_example : Tasks.state :=
  Tasks.run
    [(clock 9, Tasks.AddTask "rent" 1 (Some "1/1/2025"));
     (clock 9, Tasks.AddTask "Taxes" 3 (Some "1/1/2025"));
     (clock 9, Tasks.AddTask "call Bob" 3 None)]
    fresh_store.

(** A task due at Christmas, then one without due date. *)
Definition scenario : Tasks.state :=
  Tasks.run
    [(clock 9, Tasks.AddTask "Buy milk" 2 (Some "12/25/2025"));
     (clock 9, Tasks.AddTask "Call Bob" 3 None)]
    fresh_store.

(** Three adds, the second task deleted, one more add. *)
Definition reuse_ops : list (datetime * Tasks.op) :=
  [(clock 9, Tasks.AddTask "a" 1 None);
   (clock 9, Tasks.AddTask "b" 1 None);
   (clock 9, Tasks.AddTask "c" 1 None);
   (clock 10, Tasks.DeleteTask 2);
   (clock 11, Tasks.AddTask "d" 1 None)].

Definition reused : Tasks.state := Tasks.run reuse_ops fresh_store.

(** One task, completed at ten o'clock. *)
Definition done_once : Tasks.state :=
  Tasks.run
    [(clock 9, Tasks.AddTask "a" 1 None); (clock 10, Tasks.MarkComplete 1)]
    fresh_store.

(** A backing file that does not hold a pickle. *)
Definition garbage : @blob reference_pickle := Garbage [].

Definition corrupt_files : gmap string (@blob reference_pickle) :=
  {[todo := garbage]}.

(** ** The command line: [main] after [parse_args] *)

Module Main.
Section WithPickle.
Context {pk : Pickle}.

(** The namespace returned by [parse_args]; an option that was not given
    is [None] ([False] for the two flags, 1 for the priority). *)
Record args := mkArgs {
  arg_add : option string;
  arg_priority : Z;
  arg_due : option string;
  arg_delete : option Z;
  arg_done : option Z;
  arg_list : bool;
  arg_query : option (list string);
  arg_report : bool
}.

(** Truth value of an optional integer: [None] and 0 are false. *)
Definition truthy_int (o : option Z) : bool :=
  match o with
  | Some n => negb (n =? 0)
  | None => false
  end.

(** Truth value of an optional list: [None] and the empty list are
    false. *)
Definition truthy_list {A} (o : option (list A)) : bool :=
  match o with
  | Some (_ :: _) => true
  | _ => false
  end.

Definition due_text (task : Task.t) : string :=
  match Task.due_date task with
  | Some d => Format.strftime_mdY d
  | None => "-"
  end.

(** One line of the table of [--list] and [--query]; [now] is the clock
    read by [age]. *)
Definition list_row (now : datetime) (task : Task.t) : string :=
  Format.ljust 4 (Format.str (Task.task_id task)) +:+ " "
  +:+ Format.ljust 3 (Format.str (Task.age now task)) +:+ "  "
  +:+ Format.ljust 10 (due_text task) +:+ " "
  +:+ Format.ljust 9 (Format.str (Task.priority task)) +:+ " "
  +:+ Task.name task.

Definition list_header : list string :=
  ["ID   Age  Due Date   Priority   Task";
   "--   ---  --------   --------   ----"].

(** One line of the table of [--report]. *)
Definition report_row (now : datetime) (task : Task.t) : string :=
  Format.ljust 4 (Format.str (Task.task_id task)) +:+ " "
  +:+ Format.ljust 3 (Format.str (Task.age now task)) +:+ "  "
  +:+ Format.ljust 10 (due_text task) +:+ " "
  +:+ Format.ljust 9 (Format.str (Task.priority task)) +:+ " "
  +:+ Format.ljust 20 (Task.name task) +:+ " "
  +:+ Format.ljust 30 (Format.strftime_full (Task.created task)) +:+ " "
  +:+ match Task.completed task with
      | Some d => Format.strftime_full d
      | None => "-"
      end.

Definition report_header : list string :=
  ["ID   Age  Due Date   Priority   Task                Created                       Completed";
   "--   ---  --------   --------   ----                ---------------------------   -------------------------"].

(** What one run leaves: the lines printed, the exception that ended it
    if any, and the file system. *)
Record result := mkResult {
  printed : list string;
  raised : option exn;
  files_after : gmap string blob
}.

(** [main] from [tasks = Tasks()] on.  [help] is the text of
    [parser.print_help()], and [clock k] the value of the call number [k]
    of [datetime.now()] in this run. *)
Definition main (help : list string) (clock : nat -> datetime) (a : args)
    (files : gmap string blob) : result :=
  match Tasks.init todo files with
  | Raise e => mkResult [] (Some e) files
  | Ok tasks =>
      if Task.truthy (arg_add a) then
        match Tasks.add_task (clock 0%nat) (default EmptyString (arg_add a))
                (arg_priority a) (arg_due a) tasks with
        | (Ok task_id, tasks') =>
            mkResult ["Created task " +:+ Format.str task_id] None
              (Tasks.fs tasks')
        | (Raise e, tasks') => mkResult [] (Some e) (Tasks.fs tasks')
        end
      else if truthy_int (arg_delete a) then
        let task_id := default 0 (arg_delete a) in
        mkResult ["Deleted task " +:+ Format.str task_id] None
          (Tasks.fs (Tasks.delete_task task_id tasks))
      else if truthy_int (arg_done a) then
        let task_id := default 0 (arg_done a) in
        match Tasks.mark_complete (clock 0%nat) task_id tasks with
        | (true, tasks') =>
            mkResult ["Completed task " +:+ Format.str task_id] None
              (Tasks.fs tasks')
        | (false, tasks') =>
            mkResult ["Task " +:+ Format.str task_id +:+ " not found"] None
              (Tasks.fs tasks')
        end
      else if arg_list a then
        mkResult
          (list_header
           ++ imap (fun k l => list_row (clock k) (Tasks.deref tasks l))
                (Tasks.list_tasks None tasks))
          None (Tasks.fs tasks)
      else if truthy_list (arg_query a) then
        mkResult
          (list_header
           ++ imap (fun k l => list_row (clock k) (Tasks.deref tasks l))
                (Tasks.list_tasks (arg_query a) tasks))
          None (Tasks.fs tasks)
      else if arg_report a then
        let '(report, tasks') := Tasks.generate_report tasks in
        mkResult
          (report_header
           ++ imap (fun k l => report_row (clock k) (Tasks.deref tasks' l))
                report)
          None (Tasks.fs tasks')
      else mkResult help None (Tasks.fs tasks)
  end.

(** Tasks whose printed row is the same on every platform: an ASCII name,
    whose length is its number of characters, and years of four digits,
    which every C library writes in full. *)
Definition plain (task : Task.t) : Prop :=
  Text.is_ascii (Task.name task) = true /\
  1000 <= Datetime.year (Task.created task) /\
  (forall d, Task.due_date task = Some d -> 1000 <= Datetime.year d) /\
  (forall d, Task.completed task = Some d -> 1000 <= Datetime.year d).

(** The namespace with every option whose value is false (an empty text,
    the number 0, an empty list) taken as not given. *)
Definition normalise (a : args) : args :=
  mkArgs
    (if Task.truthy (arg_add a) then arg_add a else None)
    (arg_priority a) (arg_due a)
    (if truthy_int (arg_delete a) then arg_delete a else None)
    (if truthy_int (arg_done a) then arg_done a else None)
    (arg_list a)
    (if truthy_list (arg_query a) then arg_query a else None)
    (arg_report a).

End WithPickle.
End Main.

(** ** Concrete command lines *)

(** No option given. *)
Definition no_args : Main.args :=
  Main.mkArgs None 1 None None None false None false.

Definition three_tasks : list Task.t :=
  [Task.mk 1 "rent" 1 (clock 9)
     (Some (Datetime.mkDatetime 2025 1 1 0 0 0 0)) None;
   Task.mk 2 "Taxes" 3 (clock 9)
     (Some (Datetime.mkDatetime 2025 1 1 0 0 0 0)) (Some (clock 10));
   Task.mk 3 "call Bob" 3 (clock 9) None None].

(** A file system whose backing file holds [three_tasks]. *)
Definition three_files : gmap string (@blob reference_pickle) :=
  {[todo := (Pickled three_tasks : @blob reference_pickle)]}.

(** The store that [Tasks()] builds on [three_files]. *)
Definition three_store : Tasks.state :=
  Tasks.mkState todo [0; 1; 2]%nat (Tasks.alloc_all three_tasks) three_files.

Definition usage : list string := ["usage: finalproject.py [-h] ..."].

(** A clock that reads noon at every call. *)
Definition noon (k : nat) : datetime := clock 12.

Definition list_args : Main.args :=
  Main.mkArgs None 1 None None None true None false.

Definition report_args : Main.args :=
  Main.mkArgs None 1 None None None false None true.

Definition add_args : Main.args :=
  Main.mkArgs (Some "Buy milk") 2 (Some "12/25/2025") None None false None
    false.

Definition bad_due_args : Main.args :=
  Main.mkArgs (Some "Buy milk") 2 (Some "2025-12-25") None None false None
    false.

Definition delete_args : Main.args :=
  Main.mkArgs None 1 None (Some 2) None false None false.

Definition done_args : Main.args :=
  Main.mkArgs None 1 None None (Some 3) false None false.

Definition three_adds : list (datetime * Tasks.op) :=
  [(clock 9, Tasks.AddTask "a" 1 None);
   (clock 9, Tasks.AddTask "b" 1 (Some "1/1/2025"));
   (clock 9, Tasks.AddTask "c" 1 None)].

Definition two_marks : list (datetime * Tasks.op) :=
  [(clock 12, Tasks.MarkComplete 3); (clock 13, Tasks.MarkComplete 3)].

Definition christmas : datetime := Datetime.mkDatetime 2025 12 25 0 0 0 0.

(** * Properties of the sort *)

Section PySortFacts.
Context {A K : Type} (key : A -> K) (ltb : K -> K -> bool).

Lemma insert_by_perm x l : insert_by key ltb x l ≡ₚ x :: l.
Proof.
  induction l as [|y r IH]; simpl; [done|].
  destruct (ltb (key y) (key x)); [|done].
  rewrite IH. apply Permutation_swap.
Qed.

Lemma sort_by_perm l : sort_by key ltb l ≡ₚ l.
Proof.
  induction l as [|x l IH]; simpl; [done|].
  rewrite insert_by_perm. by f_equiv.
Qed.

Lemma elem_of_sort_by x l : x ∈ sort_by key ltb l <-> x ∈ l.
Proof. by rewrite sort_by_perm. Qed.

(** Elements that the order does not separate keep their places
    relative to each other. *)
Section Stable.
Context (P : A -> Prop) `{!forall x, Decision (P x)}.
Hypothesis P_tied : forall x y, P x -> P y -> ltb (key x) (key y) = false.

Lemma insert_by_filter x l :
  filter P (insert_by key ltb x l) = filter P (x :: l).
Proof using P_tied.
  induction l as [|y r IH]; simpl; [done|].
  destruct (ltb (key y) (key x)) eqn:Hlt; [|done].
  rewrite filter_cons, IH, !filter_cons.
  destruct (decide (P y)) as [Hy|]; [|done].
  destruct (decide (P x)) as [Hx|]; [|done].
  rewrite (P_tied y x Hy Hx) in Hlt. discriminate.
Qed.

Lemma sort_by_stable l : filter P (sort_by key ltb l) = filter P l.
Proof using P_tied.
  induction l as [|x l IH]; simpl; [done|].
  rewrite insert_by_filter, !filter_cons, IH. done.
Qed.
End Stable.

(** On a strict weak order the result is sorted. *)
Section Sorted.
Hypothesis ltb_asym : forall a b, ltb a b = true -> ltb b a = false.
Hypothesis leb_trans :
  forall a b c, ltb b a = false -> ltb c b = false -> ltb c a = false.

Lemma insert_by_sorted x l :
  StronglySorted (key_le key ltb) l -> StronglySorted (key_le key ltb) (insert_by key ltb x l).
Proof using ltb_asym leb_trans.
  induction 1 as [|y r Hr IH Hy]; simpl.
  - repeat constructor.
  - destruct (ltb (key y) (key x)) eqn:Hlt.
    + constructor; [done|].
      rewrite insert_by_perm. constructor; [|done].
      by apply ltb_asym.
    + constructor; [by constructor|].
      constructor; [done|].
      eapply Forall_impl; [exact Hy|].
      intros z Hz. unfold key_le in *. by eapply leb_trans.
Qed.

Lemma sort_by_sorted l : StronglySorted (key_le key ltb) (sort_by key ltb l).
Proof using ltb_asym leb_trans.
  induction l as [|x l IH]; simpl; [constructor|].
  by apply insert_by_sorted.
Qed.
End Sorted.
End PySortFacts.

(** * Order on datetimes and on sort keys *)

Module DatetimeFacts.
Import Datetime.

Lemma lex_compare_eq a b : lex_compare a b = Eq -> a = b.
Proof.
  revert b. induction a as [|x a IH]; intros [|y b]; simpl; try done.
  destruct (x ?= y) eqn:Hxy; try done.
  apply Z.compare_eq in Hxy. intros Hab. f_equal; auto.
Qed.

Lemma lex_compare_refl a : lex_compare a a = Eq.
Proof. induction a as [|x a IH]; simpl; [done|]. by rewrite Z.compare_refl. Qed.

Lemma lex_compare_antisym a b : lex_compare b a = CompOpp (lex_compare a b).
Proof.
  revert b. induction a as [|x a IH]; intros [|y b]; simpl; try done.
  rewrite (Z.compare_antisym x y).
  destruct (x ?= y); simpl; auto.
Qed.

Lemma lex_compare_lt_trans a b c :
  lex_compare a b = Lt -> lex_compare b c = Lt -> lex_compare a c = Lt.
Proof.
  revert b c. induction a as [|x a IH]; intros [|y b] [|z c]; simpl; try done.
  destruct (x ?= y) eqn:Hxy; try done; destruct (y ?= z) eqn:Hyz; try done.
  - apply Z.compare_eq in Hxy, Hyz. subst. rewrite Z.compare_refl. apply IH.
  - apply Z.compare_eq in Hxy. subst. by rewrite Hyz.
  - apply Z.compare_eq in Hyz. subst. by rewrite Hxy.
  - intros _ _. rewrite Z.compare_lt_iff in Hxy, Hyz.
    assert (x < z) as Hxz by lia. apply Z.compare_lt_iff in Hxz. by rewrite Hxz.
Qed.

Lemma compare_eq a b : compare a b = Eq -> a = b.
Proof.
  intros Hc. apply lex_compare_eq in Hc.
  destruct a, b. unfold fields in Hc. simpl in Hc. congruence.
Qed.

Lemma compare_refl a : compare a a = Eq.
Proof. apply lex_compare_refl. Qed.

Lemma compare_antisym a b : compare b a = CompOpp (compare a b).
Proof. apply lex_compare_antisym. Qed.

Lemma lt_irrefl a : ~ lt a a.
Proof. unfold lt. by rewrite compare_refl. Qed.

Lemma lt_trans a b c : lt a b -> lt b c -> lt a c.
Proof. apply lex_compare_lt_trans. Qed.

Lemma lt_asym a b : lt a b -> ~ lt b a.
Proof. unfold lt. rewrite (compare_antisym a b). by intros ->. Qed.

(** A date at midnight is earlier than [datetime.max]. *)
Lemma of_date_lt_max y m d dt : of_date y m d = Some dt -> lt dt max.
Proof.
  unfold of_date. destruct (_ && _) eqn:Hr; [|done].
  intros [= <-].
  repeat (apply andb_prop in Hr as [Hr ?]).
  assert (days_in_month y m <= 31) as Hdim.
  { unfold days_in_month. repeat case_match; lia. }
  unfold lt, compare, fields, max. simpl.
  destruct (y ?= 9999) eqn:Hy; [|done|rewrite Z.compare_gt_iff in Hy; lia].
  destruct (m ?= 12) eqn:Hm; [|done|rewrite Z.compare_gt_iff in Hm; lia].
  destruct (d ?= 31) eqn:Hd; [done|done|rewrite Z.compare_gt_iff in Hd; lia].
Qed.

Lemma strptime_mdY_lt_max s dt : strptime_mdY s = Some dt -> lt dt max.
Proof.
  unfold strptime_mdY. destruct (match_mdY _) as [[[m d] y]|]; [|done].
  apply of_date_lt_max.
Qed.

Lemma strptime_mdY_empty : strptime_mdY EmptyString = None.
Proof. reflexivity. Qed.

End DatetimeFacts.

Module KeyFacts.
Import Datetime DatetimeFacts Task.

Lemma key_ltb_lex a b :
  key_ltb a b = true <-> lex_compare (key_fields a) (key_fields b) = Lt.
Proof.
  destruct a as [[] p], b as [[] q]. unfold key_ltb, compare, key_fields, fields.
  cbn [fst snd app lex_compare year month day hour minute second microsecond].
  unfold Z.ltb.
  repeat (match goal with |- context [?x ?= ?y] => destruct (x ?= y) end; try done).
Qed.

Lemma key_ltb_false_lex a b :
  key_ltb a b = false <-> lex_compare (key_fields a) (key_fields b) <> Lt.
Proof. rewrite <- key_ltb_lex. by destruct (key_ltb a b). Qed.

Lemma key_ltb_asym a b : key_ltb a b = true -> key_ltb b a = false.
Proof.
  rewrite key_ltb_lex, key_ltb_false_lex, (lex_compare_antisym (key_fields a)).
  by intros ->.
Qed.

Lemma key_leb_trans a b c :
  key_ltb b a = false -> key_ltb c b = false -> key_ltb c a = false.
Proof.
  rewrite !key_ltb_false_lex.
  rewrite (lex_compare_antisym (key_fields a) (key_fields b)).
  rewrite (lex_compare_antisym (key_fields b) (key_fields c)).
  rewrite (lex_compare_antisym (key_fields a) (key_fields c)).
  destruct (lex_compare (key_fields a) (key_fields b)) eqn:Hab; try done;
    destruct (lex_compare (key_fields b) (key_fields c)) eqn:Hbc; try done;
    intros _ _.
  - apply lex_compare_eq in Hab. rewrite Hab, Hbc. done.
  - apply lex_compare_eq in Hab. rewrite Hab, Hbc. done.
  - apply lex_compare_eq in Hbc. rewrite <- Hbc, Hab. done.
  - rewrite (lex_compare_lt_trans _ _ _ Hab Hbc). done.
Qed.

Lemma key_ltb_irrefl a : key_ltb a a = false.
Proof. destruct (key_ltb a a) eqn:E; [|done]. by rewrite (key_ltb_asym _ _ E) in E. Qed.
End KeyFacts.

(** * The [in] operator finds exactly the occurrences *)

Module TextFacts.
Import Text.

Lemma append_String c s t : String c s +:+ t = String c (s +:+ t).
Proof. reflexivity. Qed.

Lemma append_Empty t : EmptyString +:+ t = t.
Proof. reflexivity. Qed.

Lemma starts_with_spec sub s :
  starts_with sub s = true <-> exists post, s = sub +:+ post.
Proof.
  revert s. induction sub as [|a sub IH]; intros s; simpl.
  - split; [|done]. intros _. by exists s.
  - destruct s as [|b s].
    + split; [done|]. intros [post Hp]. by rewrite append_String in Hp.
    + destruct (decide (a = b)) as [->|Hne].
      * rewrite IH. split; intros [post Hp]; exists post;
          rewrite append_String in *; congruence.
      * split; [done|]. intros [post Hp].
        rewrite append_String in Hp. congruence.
Qed.

Lemma str_in_spec sub s :
  str_in sub s = true <-> exists pre post, s = pre +:+ sub +:+ post.
Proof.
  split.
  - induction s as [|c s IH]; simpl; rewrite orb_true_iff, starts_with_spec.
    + intros [[post Hp]|?]; [|done]. by exists EmptyString, post.
    + intros [[post Hp]|Hin]; [by exists EmptyString, post|].
      destruct (IH Hin) as (pre & post & ->).
      by exists (String c pre), post.
  - intros (pre & post & ->).
    induction pre as [|c pre IH].
    + rewrite append_Empty.
      assert (starts_with sub (sub +:+ post) = true) as Hs
        by (apply starts_with_spec; eauto).
      destruct (sub +:+ post); simpl; by rewrite Hs.
    + rewrite append_String. simpl. rewrite IH. apply orb_true_r.
Qed.

End TextFacts.

(** * Listing and reporting *)

Module ListingFacts.
Import Tasks.
Section WithPickle.
Context {pk : Pickle}.

Lemma StronglySorted_weaken {A} (R R' : A -> A -> Prop) l :
  (forall x y, x ∈ l -> y ∈ l -> R x y -> R' x y) ->
  StronglySorted R l -> StronglySorted R' l.
Proof.
  intros HR Hs. induction Hs as [|x l Hs IH Hx]; constructor.
  - apply IH. intros a b Ha Hb. apply HR; by right.
  - rewrite Forall_forall in Hx |- *. intros y Hy.
    apply HR; [left|by right|by apply Hx].
Qed.

(** What the comparison of two keys says about the two tasks. *)
Lemma key_le_listed_before (a b : Task.t) :
  (forall d, Task.due_date a = Some d -> Datetime.lt d Datetime.max) ->
  (forall d, Task.due_date b = Some d -> Datetime.lt d Datetime.max) ->
  Task.key_ltb (Task.sort_key b) (Task.sort_key a) = false ->
  listed_before a b.
Proof.
  intros Ha Hb. unfold Task.key_ltb, Task.sort_key, listed_before. simpl.
  destruct (Task.due_date a) as [x|], (Task.due_date b) as [y|]; simpl.
  - rewrite (DatetimeFacts.compare_antisym x y).
    destruct (Datetime.compare x y) eqn:Hc; simpl; [|by left|done].
    apply DatetimeFacts.compare_eq in Hc. intros Hp. right. split; [done|lia].
  - done.
  - specialize (Hb y eq_refl). unfold Datetime.lt in Hb. by rewrite Hb.
  - lia.
Qed.

Lemma tied_not_key_ltb s due priority x y :
  tied s due priority x -> tied s due priority y ->
  Task.key_ltb (Task.sort_key (deref s x)) (Task.sort_key (deref s y)) = false.
Proof.
  intros [Hd1 Hp1] [Hd2 Hp2]. unfold Task.sort_key.
  rewrite Hd1, Hd2, Hp1, Hp2. apply KeyFacts.key_ltb_irrefl.
Qed.

Lemma sort_tasks_perm s ls : sort_tasks s ls ≡ₚ ls.
Proof. apply sort_by_perm. Qed.

Lemma sort_tasks_stable s due priority ls :
  filter (tied s due priority) (sort_tasks s ls)
  = filter (tied s due priority) ls.
Proof.
  apply sort_by_stable. intros x y. apply tied_not_key_ltb.
Qed.

Lemma sort_tasks_sorted s ls :
  (forall l d, l ∈ ls -> Task.due_date (deref s l) = Some d ->
     Datetime.lt d Datetime.max) ->
  StronglySorted (fun a b => listed_before (deref s a) (deref s b))
    (sort_tasks s ls).
Proof.
  intros Hdue.
  eapply StronglySorted_weaken;
    [|apply sort_by_sorted;
       [exact KeyFacts.key_ltb_asym | exact KeyFacts.key_leb_trans]].
  intros x y Hx Hy. unfold key_le.
  apply elem_of_sort_by in Hx, Hy.
  apply key_le_listed_before; eauto.
Qed.

Lemma matches_spec query task :
  matches query task = true <-> name_matches query task.
Proof.
  unfold matches, name_matches, contains. rewrite existsb_exists.
  split; intros (q & Hq & Hin); exists q.
  - apply TextFacts.str_in_spec in Hin. by rewrite list_elem_of_In.
  - rewrite <- list_elem_of_In. split; [done|]. by apply TextFacts.str_in_spec.
Qed.

Lemma is_completed_false task :
  Task.is_completed task = false <-> Task.completed task = None.
Proof. unfold Task.is_completed. by destruct (Task.completed task). Qed.

(** The tasks entering the sort of [list_tasks]. *)
Lemma list_tasks_elem query s l :
  l ∈ list_tasks query s <-> l ∈ tasks s /\ selected query (deref s l).
Proof.
  unfold list_tasks, selected. rewrite sort_tasks_perm.
  destruct query as [[|q qs]|];
    rewrite ?list_elem_of_filter, ?matches_spec, is_completed_false; tauto.
Qed.


Lemma list_tasks_tied_sublist query s due priority :
  filter (tied s due priority) (list_tasks query s) `sublist_of` tasks s.
Proof.
  unfold list_tasks. rewrite sort_tasks_stable.
  destruct query as [[|q qs]|];
    repeat (etrans; [apply sublist_filter; apply _|]); done.
Qed.

End WithPickle.
End ListingFacts.

(** * The store's operations on the heap and the file *)

Module StoreFacts.
Import Tasks.
Section WithPickle.
Context {pk : Pickle}.

Lemma fresh_loc_unused (s : state) : heap s !! fresh (dom (heap s)) = None.
Proof. apply not_elem_of_dom, is_fresh. Qed.

Lemma deref_lookup (s : state) l t : heap s !! l = Some t -> deref s l = t.
Proof. intros Hl. unfold deref. by rewrite (lookup_total_correct _ _ _ Hl). Qed.

Lemma elem_of_ids (s : state) id :
  id ∈ ids s <-> exists l, l ∈ tasks s /\ Task.task_id (deref s l) = id.
Proof.
  unfold ids, values. rewrite <- list_fmap_compose, list_elem_of_fmap.
  split; intros (l & Hl & Hin); exists l; simpl in *; by split.
Qed.

(** *** [Task.__init__] *)

Lemma init_due now id name priority due task d :
  Task.init now id name priority due = Ok task ->
  Task.due_date task = Some d -> Datetime.lt d Datetime.max.
Proof.
  unfold Task.init. destruct (Task.truthy due).
  - destruct (Datetime.strptime_mdY _) as [d'|] eqn:Hp; [|done].
    intros [= <-]; simpl. intros [= <-].
    by eapply DatetimeFacts.strptime_mdY_lt_max.
  - by intros [= <-].
Qed.

Lemma init_malformed now id name priority c due :
  Datetime.strptime_mdY (String c due) = None ->
  Task.init now id name priority (Some (String c due)) = Raise ValueError.
Proof. intros Hp. unfold Task.init. simpl. by rewrite Hp. Qed.

(** *** One operation, seen from one object of the heap *)

Lemma step_object now o (s : state) l t :
  heap s !! l = Some t ->
  exists t', heap (step now o s) !! l = Some t' /\
    Task.task_id t' = Task.task_id t /\
    Task.created t' = Task.created t /\
    Task.due_date t' = Task.due_date t /\
    (is_Some (Task.completed t) -> is_Some (Task.completed t')) /\
    (Task.completed t' <> Task.completed t ->
       o = MarkComplete (Task.task_id t) /\ Task.completed t' = Some now).
Proof.
  intros Hl. destruct o as [name priority due|id|id|q|]; simpl;
    try (exists t; by repeat split).
  - unfold add_task. destruct (Task.init _ _ _ _ _) as [task|e]; simpl;
      [|exists t; by repeat split].
    exists t. rewrite lookup_insert_ne; [by repeat split|].
    intros Heq. rewrite <- Heq, fresh_loc_unused in Hl. done.
  - unfold mark_complete.
    destruct (list_find _ _) as [[i l0]|] eqn:Hf; simpl;
      [|exists t; by repeat split].
    apply list_find_Some in Hf as (_ & Hid & _).
    destruct (decide (l0 = l)) as [->|Hne].
    + rewrite lookup_insert_eq. rewrite (deref_lookup _ _ _ Hl) in Hid |- *.
      eexists; split; [done|]. simpl. repeat split; eauto.
      by rewrite Hid.
    + rewrite lookup_insert_ne by done. exists t. by repeat split.
Qed.

Lemma step_heap_dues now o (s : state) :
  heap_dues_before_max s -> heap_dues_before_max (step now o s).
Proof.
  intros Hs l t d Hl Hd.
  destruct o as [name priority due|id|id|q|]; simpl in Hl; eauto.
  - unfold add_task in Hl.
    destruct (Task.init _ _ _ _ _) as [task|e] eqn:Hi; simpl in Hl; eauto.
    apply lookup_insert_Some in Hl as [[_ <-]|[_ Hl]]; eauto.
    by eapply init_due.
  - unfold mark_complete in Hl.
    destruct (list_find _ _) as [[i l0]|]; simpl in Hl; eauto.
    apply lookup_insert_Some in Hl as [[_ <-]|[_ Hl]]; eauto.
    simpl in Hd. unfold deref in Hd.
    destruct (heap s !! l0) as [t0|] eqn:H0.
    + rewrite (lookup_total_correct _ _ _ H0) in Hd. eauto.
    + rewrite lookup_total_alt, H0 in Hd. done.
Qed.

Lemma run_heap_dues ops (s : state) :
  heap_dues_before_max s -> heap_dues_before_max (run ops s).
Proof.
  revert s. induction ops as [|[now o] ops IH]; intros s Hs; simpl; [done|].
  apply IH. by apply step_heap_dues.
Qed.

Lemma empty_heap_dues path files : heap_dues_before_max (empty path files).
Proof. intros l t d Hl. simpl in Hl. by rewrite lookup_empty in Hl. Qed.

Lemma heap_dues_store (s : state) :
  heap_dues_before_max s -> due_dates_before_max s.
Proof.
  intros Hs l d _. unfold deref.
  destruct (heap s !! l) as [t|] eqn:Hl.
  - rewrite (lookup_total_correct _ _ _ Hl). eauto.
  - by rewrite lookup_total_alt, Hl.
Qed.

(** Every store built from an empty one satisfies the hypothesis on due
    dates. *)
Lemma run_due_dates ops path files :
  due_dates_before_max (run ops (empty path files)).
Proof. apply heap_dues_store, run_heap_dues, empty_heap_dues. Qed.

End WithPickle.
End StoreFacts.

(** * Identifiers: assignment and deletion *)

Module IdFacts.
Import Tasks.
Section WithPickle.
Context {pk : Pickle}.

Lemma filter_all {A} (P : A -> Prop) `{!forall x, Decision (P x)} (l : list A) :
  Forall P l -> filter P l = l.
Proof.
  induction 1 as [|x l Hx Hl IH]; [done|].
  by rewrite filter_cons_True, IH.
Qed.

Lemma length_filter_other {A} (f : A -> Z) (x : Z) (l : list A) :
  NoDup (f <$> l) -> x ∈ f <$> l ->
  S (length (filter (fun y => f y <> x) l)) = length l.
Proof.
  induction l as [|y r IH]; simpl; intros Hnd Hin.
  - by apply elem_of_nil in Hin.
  - apply NoDup_cons in Hnd as [Hy Hr].
    destruct (decide (f y = x)) as [Heq|Hne].
    + rewrite filter_cons_False by (intros Hc; by apply Hc).
      rewrite filter_all; [done|].
      apply Forall_forall. intros z Hz Hfz. apply Hy.
      rewrite Heq, <- Hfz. by apply list_elem_of_fmap_2.
    + rewrite filter_cons_True by done. simpl. f_equal. apply IH; [done|].
      apply elem_of_cons in Hin as [Hin|Hin]; [congruence|done].
Qed.

(** [add_task] returns the number of tasks plus one, and appends a new
    object with that id. *)
Lemma add_task_new_id now name priority due (s : state) id :
  (add_task now name priority due s).1 = Ok id ->
  id = Z.of_nat (length (tasks s)) + 1 /\
  exists l, heap s !! l = None /\
    tasks (add_task now name priority due s).2 = tasks s ++ [l] /\
    Task.task_id (deref (add_task now name priority due s).2 l) = id.
Proof.
  unfold add_task, Task.init.
  destruct (Task.truthy due);
    [destruct (Datetime.strptime_mdY _); [|done]|]; simpl;
    intros [= <-]; (split; [done|]);
    exists (fresh (dom (heap s)));
    (split; [apply StoreFacts.fresh_loc_unused|]); (split; [done|]);
    unfold deref; simpl; by rewrite lookup_total_insert_eq.
Qed.

Lemma add_task_ids now name priority due (s : state) id :
  well_formed s ->
  (add_task now name priority due s).1 = Ok id ->
  ids (add_task now name priority due s).2 = ids s ++ [id] /\
  well_formed (add_task now name priority due s).2.
Proof.
  intros Hwf Hok.
  destruct (add_task_new_id _ _ _ _ _ _ Hok) as (_ & l & Hfresh & Htasks & Hid).
  assert (heap (add_task now name priority due s).2
          = <[fresh (dom (heap s)) := deref (add_task now name priority due s).2
                                        (fresh (dom (heap s)))]> (heap s)
          /\ l = fresh (dom (heap s))) as [Hheap ->].
  { revert Hok Htasks. unfold add_task.
    destruct (Task.init _ _ _ _ _); simpl; [|done].
    intros _ Ht. apply app_inv_head in Ht. injection Ht as <-.
    unfold deref. simpl. by rewrite lookup_total_insert_eq. }
  split.
  - unfold ids, values. rewrite Htasks, !fmap_app. simpl. rewrite Hid.
    f_equal. rewrite <- !list_fmap_compose. apply Forall_fmap_ext_1.
    apply Forall_forall. intros l Hl. simpl. f_equal. unfold deref. rewrite Hheap.
    rewrite lookup_total_insert_ne; [done|].
    intros <-. destruct (Hwf _ Hl) as [t Ht]. congruence.
  - intros l. rewrite Htasks, Hheap, elem_of_app, list_elem_of_singleton.
    intros [Hl| ->].
    + rewrite lookup_insert_is_Some. right. split; [|by apply Hwf].
      intros <-. destruct (Hwf _ Hl) as [t Ht]. congruence.
    + rewrite lookup_insert_eq. by eexists.
Qed.

Lemma empty_well_formed path files : well_formed (empty path files).
Proof. intros l Hl. by apply elem_of_nil in Hl. Qed.

(** X1: after [N] adds that return on a store without tasks, and nothing
    else, the ids are [1], ..., [N] in store order. *)
Lemma ids_after_adds ops (s : state) :
  well_formed s ->
  Forall (fun no => add_succeeds no.2) ops ->
  ids (run ops s)
  = ids s ++ ((fun k => Z.of_nat (length (tasks s) + k)) <$> seq 1 (length ops))
  /\ well_formed (run ops s).
Proof.
  revert s. induction ops as [|[now o] ops IH]; intros s Hwf Hops; simpl.
  - by rewrite app_nil_r.
  - apply Forall_cons in Hops as [Ho Hops]. cbn [snd] in Ho.
    destruct o as [name priority due| | | |]; try done. simpl.
    unfold add_succeeds in Ho.
    assert ((add_task now name priority due s).1
            = Ok (Z.of_nat (length (tasks s)) + 1)) as Hok.
    { revert Ho. unfold add_task, Task.init.
      destruct (Task.truthy due); [|done]. by intros [d ->]. }
    destruct (add_task_ids _ _ _ _ _ _ Hwf Hok) as [Hids Hwf'].
    destruct (IH _ Hwf' Hops) as [-> Hwf'']. split; [|done].
    rewrite Hids, <- app_assoc. f_equal. simpl.
    assert (length (tasks (add_task now name priority due s).2)
            = S (length (tasks s))) as ->.
    { pose proof (f_equal length Hids) as Hlen.
      unfold ids, values in Hlen. rewrite length_app in Hlen.
      rewrite !length_fmap in Hlen. simpl in Hlen. lia. }
    f_equal; [f_equal; lia|].
    rewrite <- (fmap_S_seq 1), <- list_fmap_compose.
    apply list_fmap_ext. intros _ k _. simpl. f_equal. lia.
Qed.

(** X3: [delete_task] keeps the heap, and with an id that no task has it
    keeps the store's list, and writes the file. *)
Lemma delete_task_absent id (s : state) :
  id ∉ ids s ->
  tasks (delete_task id s) = tasks s /\
  heap (delete_task id s) = heap s /\
  fs (delete_task id s) = <[file_path s := pickle_dump (values s)]> (fs s).
Proof.
  intros Hnot.
  assert (filter (fun l => Task.task_id (deref s l) <> id) (tasks s) = tasks s)
    as Hf.
  { apply filter_all, Forall_forall. intros l Hl Hid. apply Hnot.
    apply StoreFacts.elem_of_ids. eauto. }
  unfold delete_task, save_tasks, values. simpl. by rewrite Hf.
Qed.

(** X2: in a store whose ids are distinct, [delete_task] with the id of
    a task removes that task and no other. *)
Lemma delete_task_unique id (s : state) :
  NoDup (ids s) -> id ∈ ids s ->
  S (length (tasks (delete_task id s))) = length (tasks s) /\
  (id ∉ ids (delete_task id s)) /\
  (forall l, l ∈ tasks s -> Task.task_id (deref s l) <> id ->
     l ∈ tasks (delete_task id s)).
Proof.
  intros Hnd Hin. unfold ids, values in Hnd, Hin.
  rewrite <- list_fmap_compose in Hnd, Hin. split; [|split].
  - simpl. by apply (length_filter_other (fun l => Task.task_id (deref s l))).
  - rewrite StoreFacts.elem_of_ids. intros (l & Hl & Hid).
    simpl in Hl. by apply list_elem_of_filter in Hl as [Hne _].
  - intros l Hl Hne. simpl. by apply list_elem_of_filter.
Qed.

End WithPickle.
End IdFacts.

(** * Lower case and letters that differ by case only *)

Module CaseFacts.
Import Text.


Lemma code_inj a b : N_of_ascii a = N_of_ascii b -> a = b.
Proof.
  intros Heq. rewrite <- (ascii_N_embedding a), <- (ascii_N_embedding b).
  by rewrite Heq.
Qed.

#[local] Instance code_Inj : Inj (=) (=) N_of_ascii.
Proof. intros a b. apply code_inj. Qed.






End CaseFacts.

Module SelectionFacts.
Import Tasks.
Section WithPickle.
Context {pk : Pickle}.



End WithPickle.
End SelectionFacts.

(** * The statements of the specification *)

Section Statements.
Import Tasks.
Context {pk : Pickle}.

(** C1: the lists returned by [list_tasks] and [generate_report] are in
    due-date order with the tasks without due date last, tasks due the same
    day by decreasing priority, and tasks with the same due date and
    priority in store order.  The due dates of the store are dates, hence
    earlier than [datetime.max], the key of a task without due date. *)
Theorem listing_order (query : option (list string)) (s : state) :
  due_dates_before_max s ->
  let before := fun a b => listed_before (deref s a) (deref s b) in
  let listed := list_tasks query s in
  let report := (generate_report s).1 in
  StronglySorted before listed /\
  (forall due priority,
     filter (tied s due priority) listed `sublist_of` tasks s) /\
  StronglySorted before report /\
  report ≡ₚ tasks s /\
  (forall due priority,
     filter (tied s due priority) report
     = filter (tied s due priority) (tasks s)).
Proof.
  intros Hdue. simpl. repeat split.
  - unfold list_tasks. apply ListingFacts.sort_tasks_sorted.
    intros l d Hl. apply Hdue.
    destruct query as [[|q qs]|];
      repeat (apply list_elem_of_filter in Hl as [_ Hl]); done.
  - apply ListingFacts.list_tasks_tied_sublist.
  - by apply ListingFacts.sort_tasks_sorted.
  - apply ListingFacts.sort_tasks_perm.
  - intros. apply ListingFacts.sort_tasks_stable.
Qed.


(** C10: an empty list of query terms filters nothing: the listing is the
    one of a call without query, and holds every open task. *)
Theorem list_tasks_empty_query (s : state) :
  list_tasks (Some []) s = list_tasks None s /\
  (forall l, l ∈ tasks s /\ Task.is_completed (deref s l) = false
     <-> l ∈ list_tasks (Some []) s).
Proof.
  split; [done|]. intros l.
  rewrite ListingFacts.list_tasks_elem. unfold selected.
  rewrite ListingFacts.is_completed_false. tauto.
Qed.

(** C3: when some task has the id, [mark_complete] returns [True], sets
    the completion time of the first such task, leaves every other object
    and the order of the store as they were, and writes the store to its
    file; when none has it, it returns [False] and changes nothing. *)
Theorem mark_complete_spec (now : datetime) (id : Z) (s : state) :
  (id ∈ ids s ->
   exists i l,
     tasks s !! i = Some l /\ Task.task_id (deref s l) = id /\
     (forall j l', tasks s !! j = Some l' -> (j < i)%nat ->
        Task.task_id (deref s l') <> id) /\
     let s' := (mark_complete now id s).2 in
     (mark_complete now id s).1 = true /\
     Task.completed (deref s' l) = Some now /\
     heap s' = <[l := Task.mark_complete now (deref s l)]> (heap s) /\
     tasks s' = tasks s /\ file_path s' = file_path s /\
     fs s' = <[file_path s := pickle_dump (values s')]> (fs s)) /\
  (id ∉ ids s -> mark_complete now id s = (false, s)).
Proof.
  unfold mark_complete. split.
  - intros Hin. apply StoreFacts.elem_of_ids in Hin as (l & Hl & Hid).
    destruct (list_find _ _) as [[i l0]|] eqn:Hf.
    + apply list_find_Some in Hf as (Hi & Hid0 & Hfirst).
      exists i, l0. simpl. split; [done|]. split; [done|]. split.
      { intros j l' Hj Hlt. by apply (Hfirst j l'). }
      split; [done|]. split; [|done].
      unfold deref at 1. simpl. by rewrite lookup_total_insert_eq.
    + apply list_find_None in Hf. rewrite Forall_forall in Hf.
      by destruct (Hf l Hl).
  - intros Hnot. destruct (list_find _ _) as [[i l0]|] eqn:Hf; [|done].
    apply list_find_Some in Hf as (Hi & Hid0 & _).
    destruct Hnot. apply StoreFacts.elem_of_ids. exists l0. split; [|done].
    by eapply list_elem_of_lookup_2.
Qed.

(** C6 (amended): an object of the heap keeps its id and its creation
    time through every sequence of operations, and a completion time once
    set stays set; it takes another value only when [mark_complete] is
    called again with the task's id, and is then the time of such a call. *)
Theorem task_fields_preserved (ops : list (datetime * op)) (s : state)
    (l : loc) (t : Task.t) :
  heap s !! l = Some t ->
  exists t', heap (run ops s) !! l = Some t' /\
    Task.task_id t' = Task.task_id t /\
    Task.created t' = Task.created t /\
    (is_Some (Task.completed t) -> is_Some (Task.completed t')) /\
    (Task.completed t' <> Task.completed t ->
       exists now, (now, MarkComplete (Task.task_id t)) ∈ ops /\
         Task.completed t' = Some now).
Proof.
  revert s t. induction ops as [|[now o] ops IH]; intros s t Hl; simpl.
  - exists t. by repeat split.
  - destruct (StoreFacts.step_object now o s l t Hl)
      as (t1 & Hl1 & Hid1 & Hcr1 & _ & Hset1 & Hch1).
    destruct (IH _ _ Hl1) as (t' & Hl' & Hid' & Hcr' & Hset' & Hch').
    exists t'. repeat split; try congruence; [tauto|].
    intros Hne.
    destruct (decide (Task.completed t' = Task.completed t1)) as [Heq|Hne1].
    + rewrite Heq in Hne |- *. destruct (Hch1 Hne) as [-> Hnow].
      exists now. split; [left|done].
    + destruct (Hch' Hne1) as (now' & Hin & Hnow').
      exists now'. rewrite <- Hid1. split; [by right|done].
Qed.

(** C7 (amended): [add_task] with a non-empty due-date text, of ASCII
    characters, that [strptime] rejects raises [ValueError] and leaves the
    store, the heap and the file as they were. *)
Theorem add_task_malformed (now : datetime) (name : string) (priority : Z)
    (due : string) (s : state) :
  due <> EmptyString ->
  Text.is_ascii due = true ->
  Datetime.strptime_mdY due = None ->
  add_task now name priority (Some due) s = (Raise ValueError, s).
Proof.
  intros Hne _ Hp. destruct due as [|c due]; [done|].
  unfold add_task. by rewrite StoreFacts.init_malformed.
Qed.

(** C8: constructing a store without backing file gives the empty store;
    with a backing file that [pickle.load] cannot decode, the exception
    reaches the caller and no store is built. *)
Theorem init_absent_or_corrupt (path : string) (files : gmap string blob) :
  (files !! path = None -> init path files = Ok (mkState path [] ∅ files)) /\
  (forall b, files !! path = Some b -> pickle_load b = None ->
     init path files = Raise UnpicklingError).
Proof.
  unfold init, load_tasks. split.
  - by intros ->.
  - intros b -> Hb. by rewrite Hb.
Qed.

Lemma values_alloc_all path (ts : list Task.t) files :
  values (mkState path (seq 0 (length ts)) (alloc_all ts) files) = ts.
Proof.
  unfold values, deref, alloc_all. simpl. apply list_eq. intros i.
  rewrite list_lookup_fmap.
  destruct (ts !! i) as [t|] eqn:Hi.
  - pose proof (lookup_lt_Some _ _ _ Hi) as Hlt.
    rewrite lookup_seq_lt by done. simpl.
    f_equal. apply lookup_total_correct. by rewrite lookup_map_seq_0.
  - apply lookup_ge_None in Hi. by rewrite lookup_seq_ge.
Qed.

(** C9: after [save_tasks], loading the backing file gives the tasks of
    the store, field by field and in the same order, and a store built on
    the file holds the same tasks. *)
Theorem save_then_load (s : state) :
  load_tasks (file_path s) (fs (save_tasks s)) = Ok (values s) /\
  exists s', init (file_path s) (fs (save_tasks s)) = Ok s' /\
    values s' = values s.
Proof.
  assert (load_tasks (file_path s) (fs (save_tasks s)) = Ok (values s)) as Hl.
  { unfold load_tasks, save_tasks. simpl.
    by rewrite lookup_insert_eq, pickle_load_dump. }
  split; [done|]. unfold init. rewrite Hl.
  eexists. split; [done|]. apply values_alloc_all.
Qed.

End Statements.

(** * The statements on concrete stores *)

Section Concrete.
Import Tasks.

Lemma listing_order_witness :
  due_dates_before_max sort_example /\
  StronglySorted
    (fun a b => listed_before (deref sort_example a) (deref sort_example b))
    (list_tasks None sort_example).
Proof.
  split.
  - apply StoreFacts.run_due_dates.
  - apply (listing_order None sort_example), StoreFacts.run_due_dates.
Defined.



(** The example of the specification: priority 3 due 1/1/2025, priority 1
    due 1/1/2025, then the task without due date. *)
Example sort_example_listing :
  Task.name <$> (deref sort_example <$> list_tasks None sort_example)
  = ["Taxes"; "rent"; "call Bob"]%string.
Proof. vm_compute. reflexivity. Qed.

Example scenario_listing :
  ids scenario = [1; 2] /\
  Task.name <$> (deref scenario <$> list_tasks None scenario)
  = ["Buy milk"; "Call Bob"]%string.
Proof. vm_compute. split; reflexivity. Qed.

Example query_example_listing :
  Task.name <$> (deref sort_example
                   <$> list_tasks (Some ["TAX"; "bob"]%string) sort_example)
  = ["Taxes"; "call Bob"]%string.
Proof. vm_compute. reflexivity. Qed.

Lemma mark_complete_spec_witness :
  (mark_complete (clock 12) 2 sort_example).1 = true /\
  mark_complete (clock 12) 7 sort_example = (false, sort_example).
Proof.
  assert (ids sort_example = [1; 2; 3]) as Hids by (vm_compute; reflexivity).
  split.
  - destruct (proj1 (mark_complete_spec (clock 12) 2 sort_example))
      as (i & l & _ & _ & _ & Hr & _); [|exact Hr].
    rewrite Hids. right. left.
  - apply (proj2 (mark_complete_spec (clock 12) 7 sort_example)).
    rewrite Hids, !elem_of_cons, elem_of_nil. lia.
Defined.

(** C6, as stated, fails: a second [mark_complete] with the same id
    replaces the completion time. *)
Lemma completed_overwritten :
  Task.completed (deref done_once 0%nat) = Some (clock 10) /\
  Task.completed (deref (step (clock 11) (MarkComplete 1) done_once) 0%nat)
  = Some (clock 11) /\
  clock 10 <> clock 11.
Proof. vm_compute. repeat split; congruence. Qed.

Lemma task_fields_preserved_witness :
  exists t',
    heap (run [(clock 11, MarkComplete 1)] done_once) !! 0%nat = Some t' /\
    Task.task_id t' = 1 /\ Task.created t' = clock 9 /\
    is_Some (Task.completed t').
Proof.
  destruct (task_fields_preserved [(clock 11, MarkComplete 1)] done_once 0%nat
              (Task.mk 1 "a" 1 (clock 9) None (Some (clock 10))))
    as (t' & Hl & Hid & Hcr & Hset & _).
  - vm_compute. reflexivity.
  - exists t'. repeat split; try done. apply Hset. by eexists.
Defined.

(** C7, as stated, fails: the empty text is no date, and [add_task]
    takes it for a missing due date, appends the task and saves. *)
Lemma add_task_empty_due :
  Datetime.strptime_mdY EmptyString = None /\
  (add_task (clock 9) "x" 1 (Some EmptyString) fresh_store).1 = Ok 1 /\
  values (add_task (clock 9) "x" 1 (Some EmptyString) fresh_store).2
  = [Task.mk 1 "x" 1 (clock 9) None None] /\
  load_tasks todo
    (fs (add_task (clock 9) "x" 1 (Some EmptyString) fresh_store).2)
  = Ok [Task.mk 1 "x" 1 (clock 9) None None].
Proof. vm_compute. repeat split. Qed.

Lemma add_task_malformed_witness :
  add_task (clock 9) "x" 1 (Some "2025-01-01"%string) sort_example
  = (Raise ValueError, sort_example).
Proof.
  apply add_task_malformed;
    [discriminate | vm_compute; reflexivity | vm_compute; reflexivity].
Defined.

Lemma init_absent_or_corrupt_witness :
  init todo ∅ = Ok (mkState todo [] ∅ ∅) /\
  init todo corrupt_files = Raise UnpicklingError.
Proof.
  split.
  - apply (proj1 (init_absent_or_corrupt todo ∅)). vm_compute. reflexivity.
  - apply (proj2 (init_absent_or_corrupt todo corrupt_files) garbage);
      vm_compute; reflexivity.
Defined.

(** C5 on the code: three adds, the deletion of task 2 and one more add
    leave two tasks with id 3. *)
Theorem ids_reused_after_delete :
  ids reused = [1; 3; 3] /\ ~ NoDup (ids reused).
Proof.
  assert (ids reused = [1; 3; 3]) as Hids by (vm_compute; reflexivity).
  split; [done|]. rewrite Hids. intros Hnd.
  apply NoDup_cons in Hnd as [_ Hnd]. apply NoDup_cons in Hnd as [Hnot _].
  apply Hnot. left.
Qed.

(** C4 on the code: in that store [delete_task 3] removes both tasks with
    id 3. *)
Theorem delete_task_removes_two :
  length (tasks reused) = 3%nat /\ 3 ∈ ids reused /\
  length (tasks (delete_task 3 reused)) = 1%nat /\
  ids (delete_task 3 reused) = [1].
Proof.
  assert (ids reused = [1; 3; 3]) as Hids by (vm_compute; reflexivity).
  rewrite Hids. repeat split; try (vm_compute; reflexivity).
  right. left.
Qed.

End Concrete.

(** * More on the sort: sorted input, filtering, mapping *)

Section PySortMore.
Context {A K : Type} (key : A -> K) (ltb : K -> K -> bool).

Lemma insert_by_fmap {B} (f : B -> A) (x : B) (r : list B) :
  f <$> insert_by (fun b => key (f b)) ltb x r
  = insert_by key ltb (f x) (f <$> r).
Proof.
  induction r as [|y r IHr]; [done|].
  rewrite fmap_cons. cbn [insert_by].
  destruct (ltb (key (f y)) (key (f x))); rewrite !fmap_cons;
    [by rewrite IHr|done].
Qed.

(** Sorting references by the key of what they refer to sorts the
    values. *)
Lemma sort_by_fmap {B} (f : B -> A) (l : list B) :
  f <$> sort_by (fun b => key (f b)) ltb l = sort_by key ltb (f <$> l).
Proof.
  unfold sort_by. induction l as [|x l IH]; [done|].
  rewrite fmap_cons. cbn [foldr]. by rewrite insert_by_fmap, IH.
Qed.

Lemma insert_by_sorted_head x l :
  Forall (key_le key ltb x) l -> insert_by key ltb x l = x :: l.
Proof.
  destruct 1 as [|y r Hy _]; simpl; [done|].
  unfold key_le in Hy. by rewrite Hy.
Qed.

(** A sorted list is left as it is. *)
Lemma sort_by_of_sorted l :
  StronglySorted (key_le key ltb) l -> sort_by key ltb l = l.
Proof.
  induction 1 as [|x l Hl IH Hx]; simpl; [done|].
  rewrite IH. by apply insert_by_sorted_head.
Qed.

Section Filter.
Context (P : A -> Prop) `{!forall x, Decision (P x)}.
Hypothesis leb_trans :
  forall a b c, ltb b a = false -> ltb c b = false -> ltb c a = false.

Lemma insert_by_filter_sorted x l :
  StronglySorted (key_le key ltb) l ->
  filter P (insert_by key ltb x l)
  = if decide (P x) then insert_by key ltb x (filter P l) else filter P l.
Proof using leb_trans.
  induction 1 as [|y r Hr IH Hy]; simpl.
  - rewrite filter_cons, filter_nil. by destruct (decide (P x)).
  - destruct (ltb (key y) (key x)) eqn:Hlt.
    + rewrite !(filter_cons _ y), IH.
      destruct (decide (P y)), (decide (P x)); simpl; try done.
      by rewrite Hlt.
    + rewrite (filter_cons _ x).
      destruct (decide (P x)); [|done].
      symmetry. apply insert_by_sorted_head.
      apply Forall_forall. intros z Hz.
      apply list_elem_of_filter in Hz as [_ Hz].
      apply elem_of_cons in Hz as [->|Hz]; [done|].
      rewrite Forall_forall in Hy. unfold key_le.
      eapply leb_trans; [exact Hlt|]. by apply Hy.
Qed.

(** Filtering before or after the sort gives the same list. *)
Lemma sort_by_filter l :
  (forall a b, ltb a b = true -> ltb b a = false) ->
  filter P (sort_by key ltb l) = sort_by key ltb (filter P l).
Proof using leb_trans.
  intros Hasym. induction l as [|x l IH]; simpl; [done|].
  rewrite insert_by_filter_sorted by by apply sort_by_sorted.
  rewrite filter_cons, IH. by destruct (decide (P x)).
Qed.
End Filter.
End PySortMore.

(** * The store as a sequence of task values *)

Module ValueFacts.
Import Tasks.
Section WithPickle.
Context {pk : Pickle}.

Lemma filter_fmap_comm {A B} (f : A -> B) (P : B -> Prop)
    `{!forall y, Decision (P y)} (l : list A) :
  f <$> filter (fun x => P (f x)) l = filter P (f <$> l).
Proof.
  induction l as [|x l IH]; [done|].
  rewrite fmap_cons, !filter_cons.
  destruct (decide (P (f x))); by rewrite ?fmap_cons, IH.
Qed.

Lemma on_disk_save (s : state) :
  on_disk (save_tasks s) = Ok (values (save_tasks s)).
Proof.
  unfold on_disk, load_tasks, save_tasks. simpl.
  by rewrite lookup_insert_eq, pickle_load_dump.
Qed.

Lemma values_delete_task id (s : state) :
  values (delete_task id s)
  = filter (fun t => Task.task_id t <> id) (values s).
Proof.
  unfold values, delete_task, save_tasks. simpl. unfold deref. simpl.
  exact (filter_fmap_comm (fun l : loc => heap s !!! l)
           (fun t => Task.task_id t <> id) (tasks s)).
Qed.

Lemma init_values path files (s : state) :
  init path files = Ok s ->
  load_tasks path files = Ok (values s) /\ file_path s = path /\
  fs s = files /\ no_sharing s.
Proof.
  unfold init. destruct (load_tasks path files) as [ts|e] eqn:Hl; [|done].
  intros [= <-]. rewrite values_alloc_all. simpl.
  repeat split; try done.
  - intros l Hl'. simpl in *. apply list_elem_of_lookup in Hl' as [i Hi].
    apply lookup_seq in Hi as [-> Hlt]. unfold alloc_all.
    rewrite lookup_map_seq_0. by apply lookup_lt_is_Some.
  - apply NoDup_seq.
Qed.

Lemma add_task_values now name priority due (s : state) task :
  well_formed s ->
  Task.init now (Z.of_nat (length (tasks s)) + 1) name priority due
  = Ok task ->
  let s' := (add_task now name priority due s).2 in
  (add_task now name priority due s).1
  = Ok (Z.of_nat (length (tasks s)) + 1) /\
  values s' = values s ++ [task] /\
  on_disk s' = Ok (values s ++ [task]).
Proof.
  intros Hwf Hinit. unfold add_task. rewrite Hinit. cbn [fst snd].
  assert (values
            (mkState (file_path s) (tasks s ++ [fresh (dom (heap s))])
               (<[fresh (dom (heap s)) := task]> (heap s)) (fs s))
          = values s ++ [task]) as Hv.
  { unfold values, deref. simpl. rewrite fmap_app. simpl.
    rewrite lookup_total_insert_eq. f_equal.
    apply Forall_fmap_ext_1, Forall_forall. intros l Hl.
    rewrite lookup_total_insert_ne; [done|].
    intros <-. destruct (Hwf _ Hl) as [t Ht].
    by rewrite StoreFacts.fresh_loc_unused in Ht. }
  split; [done|]. split; [exact Hv|].
  rewrite on_disk_save. f_equal. exact Hv.
Qed.

Lemma mark_first_values now id (h : gmap loc Task.t) (ls : list loc) :
  NoDup ls ->
  match list_find (fun l => Task.task_id (h !!! l) = id) ls with
  | Some (_, l0) =>
      (fun l => <[l0 := Task.mark_complete now (h !!! l0)]> h !!! l) <$> ls
  | None => (fun l => h !!! l) <$> ls
  end
  = mark_first now id ((fun l => h !!! l) <$> ls).
Proof.
  induction 1 as [|l r Hl Hr IH]; [done|].
  rewrite fmap_cons. cbn [mark_first list_find].
  destruct (decide (Task.task_id (h !!! l) = id)) as [Hid|Hid].
  - rewrite fmap_cons, lookup_total_insert_eq. f_equal.
    apply Forall_fmap_ext_1, Forall_forall. intros l' Hl'.
    rewrite lookup_total_insert_ne; [done|]. by intros <-.
  - destruct (list_find _ r) as [[i l0]|] eqn:Hf; simpl.
    + rewrite <- IH. apply list_find_Some in Hf as (_ & Hid0 & _).
      rewrite lookup_total_insert_ne; [done|]. by intros ->.
    + by rewrite <- IH.
Qed.

Lemma values_mark_complete now id (s : state) :
  NoDup (tasks s) ->
  values (mark_complete now id s).2 = mark_first now id (values s).
Proof.
  intros Hnd. pose proof (mark_first_values now id (heap s) (tasks s) Hnd) as Hm.
  unfold mark_complete, values, deref in *.
  destruct (list_find _ (tasks s)) as [[i l0]|]; simpl; exact Hm.
Qed.

Lemma values_generate_report (s : state) :
  values (generate_report s).2
  = sort_by Task.sort_key Task.key_ltb (values s).
Proof.
  unfold values, generate_report, sort_tasks, deref. simpl.
  apply (sort_by_fmap Task.sort_key Task.key_ltb (fun l => heap s !!! l)).
Qed.

(** *** The store never shares or loses an object *)

Lemma step_no_sharing now o (s : state) :
  no_sharing s -> no_sharing (step now o s).
Proof.
  intros [Hwf Hnd]. destruct o as [name priority due|id|id|q|]; simpl.
  - unfold add_task. destruct (Task.init _ _ _ _ _) as [task|e]; simpl;
      [|by split].
    split.
    + intros l. simpl. rewrite elem_of_app, list_elem_of_singleton.
      rewrite lookup_insert_is_Some.
      intros [Hl| ->]; [|by left]. right. split; [|by apply Hwf].
      intros <-. destruct (Hwf _ Hl) as [t Ht].
      by rewrite StoreFacts.fresh_loc_unused in Ht.
    + simpl. apply NoDup_app. split; [done|]. split; [|apply NoDup_singleton].
      intros l Hl ->%list_elem_of_singleton.
      destruct (Hwf _ Hl) as [t Ht].
      by rewrite StoreFacts.fresh_loc_unused in Ht.
  - split.
    + intros l Hl. simpl in *. apply list_elem_of_filter in Hl as [_ Hl].
      by apply Hwf.
    + simpl. by apply NoDup_filter.
  - unfold mark_complete. destruct (list_find _ _) as [[i l0]|]; simpl;
      [|by split].
    split; [|done]. intros l Hl. simpl in *.
    rewrite lookup_insert_is_Some.
    destruct (decide (l0 = l)); [by left|right]. split; [done|by apply Hwf].
  - by split.
  - split.
    + intros l Hl. simpl in *. apply Hwf.
      by rewrite <- (ListingFacts.sort_tasks_perm s (tasks s)).
    + simpl. by rewrite ListingFacts.sort_tasks_perm.
Qed.

Lemma run_no_sharing ops (s : state) : no_sharing s -> no_sharing (run ops s).
Proof.
  revert s. induction ops as [|[now o] ops IH]; intros s Hs; simpl; [done|].
  apply IH. by apply step_no_sharing.
Qed.

Lemma step_file_path now o (s : state) : file_path (step now o s) = file_path s.
Proof.
  destruct o as [name priority due|id|id|q|]; simpl; try done.
  - unfold add_task. by destruct (Task.init _ _ _ _ _).
  - unfold mark_complete. by destruct (list_find _ _) as [[i l0]|].
Qed.

Lemma run_file_path ops (s : state) : file_path (run ops s) = file_path s.
Proof.
  revert s. induction ops as [|[now o] ops IH]; intros s; simpl; [done|].
  by rewrite IH, step_file_path.
Qed.

(** *** The file follows the store *)

Lemma step_on_disk now o (s : state) :
  not_report o ->
  on_disk s = Ok (values s) ->
  on_disk (step now o s) = Ok (values (step now o s)).
Proof.
  intros Ho Hs. destruct o as [name priority due|id|id|q|]; simpl; try done.
  - unfold add_task. destruct (Task.init _ _ _ _ _) as [task|e]; simpl;
      [apply on_disk_save|done].
  - apply on_disk_save.
  - unfold mark_complete. destruct (list_find _ _) as [[i l0]|]; simpl;
      [apply on_disk_save|done].
Qed.

Lemma step_on_disk_perm now o (s : state) :
  (exists ts, on_disk s = Ok ts /\ ts ≡ₚ values s) ->
  exists ts, on_disk (step now o s) = Ok ts /\ ts ≡ₚ values (step now o s).
Proof.
  intros (ts & Hd & Hp).
  destruct o as [name priority due|id|id|q|]; simpl; eauto.
  - unfold add_task. destruct (Task.init _ _ _ _ _) as [task|e]; simpl; eauto.
    eexists. split; [apply on_disk_save|done].
  - eexists. split; [apply on_disk_save|done].
  - unfold mark_complete. destruct (list_find _ _) as [[i l0]|]; simpl; eauto.
    eexists. split; [apply on_disk_save|done].
  - exists ts. split; [done|]. rewrite Hp.
    unfold values, deref. simpl. apply fmap_Permutation. symmetry.
    apply ListingFacts.sort_tasks_perm.
Qed.

End WithPickle.
End ValueFacts.

(** * How the operations of the store compose *)

Section Composition.
Import Tasks.
Context {pk : Pickle}.

(** X4: deleting the same id a second time changes nothing: not the
    list of tasks, not the heap, not the file. *)
Theorem delete_task_twice (id : Z) (s : state) :
  delete_task id (delete_task id s) = delete_task id s.
Proof.
  unfold delete_task, save_tasks, values. simpl. unfold deref. simpl.
  rewrite insert_insert_eq.
  assert (filter (fun l : loc => Task.task_id (heap s !!! l) <> id)
            (filter (fun l : loc => Task.task_id (heap s !!! l) <> id)
               (tasks s))
          = filter (fun l : loc => Task.task_id (heap s !!! l) <> id)
              (tasks s)) as ->; [|done].
  apply IdFacts.filter_all, Forall_forall. intros l Hl.
  by apply list_elem_of_filter in Hl as [Hne _].
Qed.

(** X5: once [mark_complete] has found a task, that task is in no
    listing any more, and every other task is listed as before. *)
Theorem mark_complete_unlists (now : datetime) (id : Z) (s : state)
    (query : option (list string)) :
  id ∈ ids s ->
  exists l0, l0 ∈ tasks s /\ Task.task_id (deref s l0) = id /\
    forall l, l ∈ list_tasks query (mark_complete now id s).2
      <-> l ∈ list_tasks query s /\ l <> l0.
Proof.
  intros Hin. apply StoreFacts.elem_of_ids in Hin as (l1 & Hl1 & Hid1).
  unfold mark_complete.
  destruct (list_find _ _) as [[i l0]|] eqn:Hf.
  - apply list_find_Some in Hf as (Hi & Hid0 & _).
    exists l0. split; [by eapply list_elem_of_lookup_2|]. split; [done|].
    intros l. rewrite !ListingFacts.list_tasks_elem. simpl.
    destruct (decide (l = l0)) as [->|Hne].
    + unfold deref at 1. simpl. rewrite lookup_total_insert_eq.
      unfold selected. simpl. split; [by intros [_ [? _]]|by intros [_ ?]].
    + unfold deref at 1. simpl.
      rewrite lookup_total_insert_ne by done. fold (deref s l). tauto.
  - apply list_find_None in Hf. rewrite Forall_forall in Hf.
    by destruct (Hf l1 Hl1).
Qed.

Lemma mark_complete_tasks now id (s : state) :
  tasks (mark_complete now id s).2 = tasks s.
Proof. unfold mark_complete. by destruct (list_find _ _) as [[i l0]|]. Qed.

Lemma mark_complete_task_id now id (s : state) l :
  Task.task_id (deref (mark_complete now id s).2 l) = Task.task_id (deref s l).
Proof.
  unfold mark_complete. destruct (list_find _ _) as [[i l0]|]; [|done].
  unfold deref. simpl. destruct (decide (l0 = l)) as [->|Hne].
  - by rewrite lookup_total_insert_eq.
  - by rewrite lookup_total_insert_ne.
Qed.

(** X6: when two tasks have the same id, no sequence of calls of
    [mark_complete] ever changes the later one: it cannot be completed. *)
Theorem shadowed_task_never_completed (ops : list (datetime * op))
    (s : state) (i j : nat) (l l' : loc) :
  NoDup (tasks s) ->
  tasks s !! i = Some l -> tasks s !! j = Some l' -> (i < j)%nat ->
  Task.task_id (deref s l) = Task.task_id (deref s l') ->
  Forall (fun no => is_mark_complete no.2) ops ->
  deref (run ops s) l' = deref s l'.
Proof.
  revert s. induction ops as [|[now o] ops IH]; intros s Hnd Hi Hj Hlt Hid Hops;
    simpl; [done|].
  apply Forall_cons in Hops as [Ho Hops]. cbn [snd] in Ho.
  destruct o as [| |id| |]; try done. simpl.
  rewrite IH; try done.
  - unfold mark_complete.
    destruct (list_find _ _) as [[i0 l0]|] eqn:Hf; [|done].
    apply list_find_Some in Hf as (Hi0 & Hid0 & Hfirst).
    unfold deref. simpl. rewrite lookup_total_insert_ne; [done|].
    intros ->.
    assert (i0 = j) as -> by (by eapply NoDup_lookup).
    apply (Hfirst i l Hi Hlt). unfold deref in *. congruence.
  - by rewrite mark_complete_tasks.
  - by rewrite mark_complete_tasks.
  - by rewrite mark_complete_tasks.
  - by rewrite !mark_complete_task_id.
Qed.

Lemma sort_tasks_twice (s : state) ls :
  sort_tasks s (sort_tasks s ls) = sort_tasks s ls.
Proof.
  apply sort_by_of_sorted, sort_by_sorted.
  - exact KeyFacts.key_ltb_asym.
  - exact KeyFacts.key_leb_trans.
Qed.

(** X7: [generate_report] reorders the store's list and touches neither
    the heap nor the file, and a second report returns the same list and
    leaves the store as the first one did. *)
Theorem generate_report_twice (s : state) :
  heap (generate_report s).2 = heap s /\
  fs (generate_report s).2 = fs s /\
  generate_report (generate_report s).2 = generate_report s.
Proof.
  split; [done|]. split; [done|].
  unfold generate_report. simpl.
  assert (sort_tasks
            (mkState (file_path s) (sort_tasks s (tasks s)) (heap s) (fs s))
            (sort_tasks s (tasks s))
          = sort_tasks s (tasks s)) as ->; [|done].
  exact (sort_tasks_twice s (tasks s)).
Qed.

Lemma listing_of_sorted (d : loc -> Task.t) (P : loc -> Prop)
    `{!forall l, Decision (P l)} (ls : list loc) :
  sort_by (fun l => Task.sort_key (d l)) Task.key_ltb
    (filter P (sort_by (fun l => Task.sort_key (d l)) Task.key_ltb ls))
  = sort_by (fun l => Task.sort_key (d l)) Task.key_ltb (filter P ls).
Proof.
  rewrite (sort_by_filter _ _ _ KeyFacts.key_leb_trans _ KeyFacts.key_ltb_asym).
  apply sort_by_of_sorted, sort_by_sorted.
  - exact KeyFacts.key_ltb_asym.
  - exact KeyFacts.key_leb_trans.
Qed.

(** X8: the reordering done by [generate_report] does not show in
    [list_tasks]: the listing after a report is the listing before it. *)
Theorem list_tasks_after_report (query : option (list string)) (s : state) :
  list_tasks query (generate_report s).2 = list_tasks query s.
Proof.
  unfold list_tasks, generate_report, sort_tasks, deref.
  cbn [tasks heap snd].
  destruct query as [[|q qs]|]; try apply listing_of_sorted.
  rewrite (sort_by_filter _ _ _ KeyFacts.key_leb_trans _ KeyFacts.key_ltb_asym).
  apply listing_of_sorted.
Qed.

(** X9: a store built by [Tasks(path)] and run through any operations
    refers to allocated task objects only and never holds the same object
    twice. *)
Theorem store_never_shares (path : string) (files : gmap string blob)
    (s : state) (ops : list (datetime * op)) :
  init path files = Ok s -> no_sharing (run ops s).
Proof.
  intros Hi. apply ValueFacts.run_no_sharing.
  by apply ValueFacts.init_values in Hi as (_ & _ & _ & Hn).
Qed.

Lemma run_on_disk ops (s : state) :
  Forall (fun no => not_report no.2) ops ->
  on_disk s = Ok (values s) ->
  on_disk (run ops s) = Ok (values (run ops s)).
Proof.
  revert s. induction ops as [|[now o] ops IH]; intros s Hops Hs; simpl;
    [done|].
  apply Forall_cons in Hops as [Ho Hops].
  apply IH; [done|]. by apply ValueFacts.step_on_disk.
Qed.

Lemma run_on_disk_perm ops (s : state) :
  (exists ts, on_disk s = Ok ts /\ ts ≡ₚ values s) ->
  exists ts, on_disk (run ops s) = Ok ts /\ ts ≡ₚ values (run ops s).
Proof.
  revert s. induction ops as [|[now o] ops IH]; intros s Hs; simpl; [done|].
  apply IH. by apply ValueFacts.step_on_disk_perm.
Qed.

Lemma init_of_on_disk (s : state) ts :
  on_disk s = Ok ts ->
  exists s', init (file_path s) (fs s) = Ok s' /\ values s' = ts.
Proof.
  unfold on_disk, init. intros ->. eexists. split; [done|].
  apply values_alloc_all.
Qed.

(** X10: when the file holds the tasks of the store, it still does after
    any operations other than [generate_report]: a store opened on the
    file afterwards has the same tasks in the same order. *)
Theorem reopen_after_run (ops : list (datetime * op)) (s : state) :
  on_disk s = Ok (values s) ->
  Forall (fun no => not_report no.2) ops ->
  exists s', init (file_path s) (fs (run ops s)) = Ok s' /\
    values s' = values (run ops s).
Proof.
  intros Hs Hops. rewrite <- (ValueFacts.run_file_path ops s).
  apply init_of_on_disk. by apply run_on_disk.
Qed.

(** X11: with [generate_report] among the operations the file may hold
    the tasks in another order than the store, and nothing else: a store
    opened on the file afterwards has the same tasks up to order. *)
Theorem reopen_after_run_perm (ops : list (datetime * op)) (s : state) :
  on_disk s = Ok (values s) ->
  exists s', init (file_path s) (fs (run ops s)) = Ok s' /\
    values s' ≡ₚ values (run ops s).
Proof.
  intros Hs. rewrite <- (ValueFacts.run_file_path ops s).
  destruct (run_on_disk_perm ops s) as (ts & Hd & Hp); [by eauto|].
  destruct (init_of_on_disk _ _ Hd) as (s' & Hi & <-). eauto.
Qed.

End Composition.

(** * Elapsed time and the age of a task *)

Module TimedeltaFacts.
Import Datetime Timedelta.

Lemma make_days d s us :
  days (make d s us) = ((d * 86400 + s) * 1000000 + us) / 86400000000.
Proof. unfold make. simpl. Z.div_mod_to_equations. lia. Qed.

Lemma sub_days a b :
  days (sub a b) = (to_microseconds a - to_microseconds b) / 86400000000.
Proof.
  unfold sub. rewrite make_days. f_equal. unfold to_microseconds. lia.
Qed.

Lemma days_before_year_succ y :
  days_before_year (y + 1)
  = days_before_year y + 365 + (if is_leap y then 1 else 0).
Proof.
  unfold days_before_year, is_leap.
  replace (y + 1 - 1) with y by lia.
  destruct (y mod 4 =? 0) eqn:H4; destruct (y mod 100 =? 0) eqn:H100;
    destruct (y mod 400 =? 0) eqn:H400; simpl;
    rewrite ?Z.eqb_eq, ?Z.eqb_neq in *;
    Z.div_mod_to_equations; lia.
Qed.

Lemma days_before_year_mono y y' :
  y <= y' -> days_before_year y <= days_before_year y'.
Proof.
  intros Hle. replace y' with (y + (y' - y)) by lia.
  assert (0 <= y' - y) as Hn by lia. revert Hn.
  generalize (y' - y). intros n Hn. clear Hle.
  pattern n. apply natlike_ind; [by rewrite Z.add_0_r| |done].
  intros k Hk IH. replace (y + Z.succ k) with (y + k + 1) by lia.
  rewrite days_before_year_succ. destruct (is_leap (y + k)); lia.
Qed.

Ltac month_cases m :=
  let H := fresh in
  assert (m = 1 \/ m = 2 \/ m = 3 \/ m = 4 \/ m = 5 \/ m = 6 \/ m = 7
          \/ m = 8 \/ m = 9 \/ m = 10 \/ m = 11 \/ m = 12) as H by lia;
  destruct H as [->|[->|[->|[->|[->|[->|[->|[->|[->|[->|[->| ->]]]]]]]]]]].

(** The day of the year of a date is between 1 and the length of the
    year. *)
Lemma day_of_year_bounds y m d :
  1 <= m <= 12 -> 1 <= d <= days_in_month y m ->
  1 <= days_before_month y m + d <= 365 + (if is_leap y then 1 else 0).
Proof.
  intros Hm. month_cases m; unfold days_before_month, days_in_month; simpl;
    destruct (is_leap y); simpl; lia.
Qed.

Lemma day_of_year_month_lt y m d m' d' :
  1 <= m -> m < m' -> m' <= 12 ->
  d <= days_in_month y m -> 1 <= d' ->
  days_before_month y m + d < days_before_month y m' + d'.
Proof.
  intros Hm Hlt Hm'.
  month_cases m; month_cases m'; try lia;
    unfold days_before_month, days_in_month; simpl;
    destruct (is_leap y); simpl; lia.
Qed.

Lemma toordinal_lt a b :
  valid a -> valid b ->
  lex_compare [year a; month a; day a] [year b; month b; day b] = Lt ->
  toordinal a < toordinal b.
Proof.
  intros (Hya & Hma & Hda & _) (Hyb & Hmb & Hdb & _).
  unfold toordinal. simpl.
  destruct (year a ?= year b) eqn:Hy; [|intros _|done].
  - apply Z.compare_eq in Hy. rewrite Hy in *.
    destruct (month a ?= month b) eqn:Hm; [|intros _|done].
    + apply Z.compare_eq in Hm. rewrite Hm in *.
      destruct (day a ?= day b) eqn:Hd; [done|intros _|done].
      rewrite Z.compare_lt_iff in Hd. lia.
    + rewrite Z.compare_lt_iff in Hm.
      pose proof (day_of_year_month_lt (year b) (month a) (day a)
                    (month b) (day b)). lia.
  - rewrite Z.compare_lt_iff in Hy.
    pose proof (day_of_year_bounds (year a) (month a) (day a) Hma Hda).
    pose proof (day_of_year_bounds (year b) (month b) (day b) Hmb Hdb).
    pose proof (days_before_year_succ (year a)).
    pose proof (days_before_year_mono (year a + 1) (year b)). lia.
Qed.

Lemma lex_compare_app_eq a b c d :
  lex_compare a b = Eq -> lex_compare (a ++ c) (b ++ d) = lex_compare c d.
Proof.
  revert b. induction a as [|x a IH]; intros [|y b]; simpl; try done.
  destruct (x ?= y); try done. apply IH.
Qed.

Lemma lex_compare_app_lt a b c d :
  length a = length b ->
  lex_compare a b = Lt -> lex_compare (a ++ c) (b ++ d) = Lt.
Proof.
  revert b. induction a as [|x a IH]; intros [|y b]; simpl; try done.
  intros [= Hlen]. destruct (x ?= y); try done. by apply IH.
Qed.

(** The order of two datetimes is the order of their distances from the
    beginning of year 1. *)
Lemma to_microseconds_lt a b :
  valid a -> valid b -> compare a b = Lt ->
  to_microseconds a < to_microseconds b.
Proof.
  intros Ha Hb. unfold compare, fields.
  change [year a; month a; day a; hour a; minute a; second a; microsecond a]
    with ([year a; month a; day a]
          ++ [hour a; minute a; second a; microsecond a]).
  change [year b; month b; day b; hour b; minute b; second b; microsecond b]
    with ([year b; month b; day b]
          ++ [hour b; minute b; second b; microsecond b]).
  destruct (lex_compare [year a; month a; day a] [year b; month b; day b])
    eqn:Hdate.
  - rewrite (lex_compare_app_eq _ _ _ _ Hdate).
    apply DatetimeFacts.lex_compare_eq in Hdate.
    injection Hdate as Hy Hm Hd.
    destruct Ha as (_ & _ & _ & Hha & Hmia & Hsa & Husa).
    destruct Hb as (_ & _ & _ & Hhb & Hmib & Hsb & Husb).
    unfold to_microseconds, toordinal. rewrite Hy, Hm, Hd. simpl.
    destruct (hour a ?= hour b) eqn:Hh; [|intros _|done].
    + apply Z.compare_eq in Hh.
      destruct (minute a ?= minute b) eqn:Hmi; [|intros _|done].
      * apply Z.compare_eq in Hmi.
        destruct (second a ?= second b) eqn:Hs; [|intros _|done].
        -- apply Z.compare_eq in Hs.
           destruct (microsecond a ?= microsecond b) eqn:Hus; try done.
           rewrite Z.compare_lt_iff in Hus. lia.
        -- rewrite Z.compare_lt_iff in Hs. lia.
      * rewrite Z.compare_lt_iff in Hmi. lia.
    + rewrite Z.compare_lt_iff in Hh. lia.
  - intros _. pose proof (toordinal_lt a b Ha Hb Hdate).
    destruct Ha as (_ & _ & _ & Hha & Hmia & Hsa & Husa).
    destruct Hb as (_ & _ & _ & Hhb & Hmib & Hsb & Husb).
    unfold to_microseconds. lia.
  - rewrite DatetimeFacts.lex_compare_antisym in Hdate.
    destruct (lex_compare [year b; month b; day b] [year a; month a; day a])
      eqn:Hdate'; try done.
    intros Hc.
    rewrite DatetimeFacts.lex_compare_antisym in Hc.
    rewrite (lex_compare_app_lt [year b; month b; day b]
              [year a; month a; day a]) in Hc; done.
Qed.

Lemma to_microseconds_le a b :
  valid a -> valid b -> compare b a <> Lt ->
  to_microseconds a <= to_microseconds b.
Proof.
  intros Ha Hb Hc. destruct (compare a b) eqn:Hab.
  - apply DatetimeFacts.compare_eq in Hab. by rewrite Hab.
  - pose proof (to_microseconds_lt a b Ha Hb Hab). lia.
  - rewrite DatetimeFacts.compare_antisym, Hab in Hc. done.
Qed.

End TimedeltaFacts.

Section Age.
Import Datetime Timedelta.

(** X12: for a valid clock reading and creation time, the age of a task is
    negative exactly when the clock reading is earlier than the
    creation. *)
Theorem age_nonneg_iff (now : datetime) (task : Task.t) :
  valid now -> valid (Task.created task) ->
  (0 <= Task.age now task <-> compare now (Task.created task) <> Lt).
Proof.
  intros Hn Hc. unfold Task.age. rewrite TimedeltaFacts.sub_days. split.
  - intros Hage Hlt.
    pose proof (TimedeltaFacts.to_microseconds_lt _ _ Hn Hc Hlt).
    revert Hage. Z.div_mod_to_equations. lia.
  - intros Hnlt.
    pose proof (TimedeltaFacts.to_microseconds_le _ _ Hc Hn Hnlt).
    apply Z.div_pos; lia.
Qed.

(** X13: the age of a task does not decrease when the clock advances. *)
Theorem age_monotone (now now' : datetime) (task : Task.t) :
  valid now -> valid now' -> compare now' now <> Lt ->
  Task.age now task <= Task.age now' task.
Proof.
  intros Hn Hn' Hc. unfold Task.age. rewrite !TimedeltaFacts.sub_days.
  pose proof (TimedeltaFacts.to_microseconds_le _ _ Hn Hn' Hc).
  apply Z.div_le_mono; lia.
Qed.

(** X14: a task created earlier on the same calendar day has age 0. *)
Theorem age_same_day (now : datetime) (task : Task.t) :
  valid now -> valid (Task.created task) ->
  year now = year (Task.created task) ->
  month now = month (Task.created task) ->
  day now = day (Task.created task) ->
  compare now (Task.created task) <> Lt ->
  Task.age now task = 0.
Proof.
  intros Hn Hc Hy Hm Hd Hnlt. unfold Task.age.
  rewrite TimedeltaFacts.sub_days.
  pose proof (TimedeltaFacts.to_microseconds_le _ _ Hc Hn Hnlt) as Hle.
  apply Z.div_small.
  destruct Hn as (_ & _ & _ & Hha & Hmia & Hsa & Husa).
  destruct Hc as (_ & _ & _ & Hhb & Hmib & Hsb & Husb).
  revert Hle. unfold to_microseconds, toordinal. rewrite Hy, Hm, Hd. lia.
Qed.

End Age.

(** * Due dates: what [strptime] returns and what it reads back *)

Module DueDateFacts.
Import Datetime Format.

Ltac digit_cases k :=
  let H := fresh in
  assert (k = 0 \/ k = 1 \/ k = 2 \/ k = 3 \/ k = 4 \/ k = 5 \/ k = 6
          \/ k = 7 \/ k = 8 \/ k = 9) as H by lia;
  destruct H as [->|[->|[->|[->|[->|[->|[->|[->|[->| ->]]]]]]]]].

Lemma digit_char_spec k :
  0 <= k <= 9 -> is_digit (digit_char k) = true /\ digit (digit_char k) = k.
Proof. intros Hk. digit_cases k; by vm_compute. Qed.

Lemma year_end_pad4 y :
  0 <= y <= 9999 ->
  year_end [digit_char (y / 100 / 10); digit_char (y / 100 mod 10);
            digit_char (y mod 100 / 10); digit_char (y mod 100 mod 10)]
  = Some y.
Proof.
  intros Hy. unfold year_end.
  destruct (digit_char_spec (y / 100 / 10)) as [-> ->];
    [Z.div_mod_to_equations; lia|].
  destruct (digit_char_spec (y / 100 mod 10)) as [-> ->];
    [Z.div_mod_to_equations; lia|].
  destruct (digit_char_spec (y mod 100 / 10)) as [-> ->];
    [Z.div_mod_to_equations; lia|].
  destruct (digit_char_spec (y mod 100 mod 10)) as [-> ->];
    [Z.div_mod_to_equations; lia|].
  simpl. f_equal. Z.div_mod_to_equations. lia.
Qed.

Lemma month_alts_pad2 m rest :
  1 <= m <= 12 ->
  exists tl,
    month_alts (digit_char (m / 10) :: digit_char (m mod 10) :: rest)
    = (m, rest) :: tl.
Proof.
  intros Hm.
  assert (m = 1 \/ m = 2 \/ m = 3 \/ m = 4 \/ m = 5 \/ m = 6 \/ m = 7
          \/ m = 8 \/ m = 9 \/ m = 10 \/ m = 11 \/ m = 12) as H by lia.
  destruct H as [->|[->|[->|[->|[->|[->|[->|[->|[->|[->|[->| ->]]]]]]]]]]];
    eexists; reflexivity.
Qed.

Lemma day_alts_pad2 d rest :
  1 <= d <= 31 ->
  exists tl,
    day_alts (digit_char (d / 10) :: digit_char (d mod 10) :: rest)
    = (d, rest) :: tl.
Proof.
  intros Hd.
  assert (exists a b, d = 10 * a + b /\ 0 <= a <= 3 /\ 0 <= b <= 9
                      /\ (a = 3 -> b <= 1) /\ (a = 0 -> 1 <= b))
    as (a & b & -> & Ha & Hb & H3 & H0).
  { exists (d / 10), (d mod 10). Z.div_mod_to_equations. lia. }
  assert (a = 0 \/ a = 1 \/ a = 2 \/ a = 3) as [->|[->|[->| ->]]] by lia;
    digit_cases b; try lia; eexists; reflexivity.
Qed.

Lemma slash_cons rest : slash ("/"%char :: rest) = Some rest.
Proof. reflexivity. Qed.

Lemma strftime_mdY_chars d :
  list_ascii_of_string (strftime_mdY d)
  = digit_char (month d / 10) :: digit_char (month d mod 10) :: "/"%char
    :: digit_char (day d / 10) :: digit_char (day d mod 10) :: "/"%char
    :: [digit_char (year d / 100 / 10); digit_char (year d / 100 mod 10);
        digit_char (year d mod 100 / 10); digit_char (year d mod 100 mod 10)].
Proof. reflexivity. Qed.

Lemma of_date_valid y m d dt :
  of_date y m d = Some dt ->
  dt = mkDatetime y m d 0 0 0 0 /\ Timedelta.valid dt.
Proof.
  unfold of_date. destruct (_ && _) eqn:Hr; [|done]. intros [= <-].
  repeat (apply andb_prop in Hr as [Hr ?]).
  split; [done|]. unfold Timedelta.valid. simpl. lia.
Qed.

End DueDateFacts.

Section DueDates.
Import Datetime Format.

(** X15: a task is never created with a due date that is not a day of
    the calendar: the due date set by [Task.__init__] is a valid date
    (month 1 to 12, day within the month, leap years counted) at
    midnight. *)
Theorem init_due_date_valid (now : datetime) (id : Z) (name : string)
    (priority : Z) (due : option string) (task : Task.t) (d : datetime) :
  Task.init now id name priority due = Ok task ->
  Task.due_date task = Some d ->
  Timedelta.valid d /\
  hour d = 0 /\ minute d = 0 /\ second d = 0 /\ microsecond d = 0.
Proof.
  unfold Task.init. destruct (Task.truthy due); [|by intros [= <-]].
  unfold strptime_mdY.
  destruct (match_mdY _) as [[[m dd] y]|]; [|done].
  destruct (of_date y m dd) as [dt|] eqn:Hof; [|done].
  intros [= <-]. simpl. intros [= <-].
  apply DueDateFacts.of_date_valid in Hof as [-> Hv]. by split.
Qed.

(** X16: the text [strftime('%m/%d/%Y')] shows for a due date is read
    back by [strptime] as the same date, for every valid date at midnight
    with a year of four digits. *)
Theorem strptime_strftime (d : datetime) :
  Timedelta.valid d -> 1000 <= year d ->
  hour d = 0 -> minute d = 0 -> second d = 0 -> microsecond d = 0 ->
  strptime_mdY (strftime_mdY d) = Some d.
Proof.
  intros (Hy & Hm & Hd & _) Hy4 Hh Hmi Hs Hus.
  unfold strptime_mdY, match_mdY. rewrite DueDateFacts.strftime_mdY_chars.
  destruct (DueDateFacts.month_alts_pad2 (month d)
              ("/"%char :: digit_char (day d / 10)
               :: digit_char (day d mod 10) :: "/"%char
               :: [digit_char (year d / 100 / 10);
                   digit_char (year d / 100 mod 10);
                   digit_char (year d mod 100 / 10);
                   digit_char (year d mod 100 mod 10)]) Hm) as [tl ->].
  assert (1 <= day d <= 31) as Hd31.
  { split; [lia|]. destruct Hd as [_ Hd]. revert Hd.
    unfold days_in_month. repeat case_match; lia. }
  cbn [first_some]. rewrite DueDateFacts.slash_cons.
  destruct (DueDateFacts.day_alts_pad2 (day d)
              ("/"%char :: [digit_char (year d / 100 / 10);
                   digit_char (year d / 100 mod 10);
                   digit_char (year d mod 100 / 10);
                   digit_char (year d mod 100 mod 10)]) Hd31) as [tl' ->].
  cbn [first_some]. rewrite DueDateFacts.slash_cons.
  rewrite DueDateFacts.year_end_pad4 by lia.
  unfold of_date.
  rewrite !(proj2 (Z.leb_le _ _)) by lia. simpl.
  destruct d; simpl in *. congruence.
Qed.

End DueDates.

(** * One run of the command line *)

Module MainFacts.
Import Tasks Main.
Section WithPickle.
Context {pk : Pickle}.

Lemma init_loaded (files : gmap string blob) ts :
  load_tasks todo files = Ok ts ->
  exists s, init todo files = Ok s /\ values s = ts /\ file_path s = todo /\
    fs s = files /\ no_sharing s /\ length (tasks s) = length ts.
Proof.
  intros Hl. unfold init. rewrite Hl. eexists. split; [done|].
  assert (init todo files
          = Ok (mkState todo (seq 0 (length ts)) (alloc_all ts) files)) as Hi
    by (unfold init; by rewrite Hl).
  apply ValueFacts.init_values in Hi as (Hv & Hp & Hf & Hn).
  rewrite Hl in Hv. injection Hv as Hv.
  split; [done|]. split; [done|]. split; [done|]. split; [done|].
  simpl. apply length_seq.
Qed.

Lemma mark_complete_found now id (s : state) :
  id ∈ ids s ->
  (mark_complete now id s).1 = true /\
  on_disk (mark_complete now id s).2 = Ok (values (mark_complete now id s).2).
Proof.
  intros Hin. apply StoreFacts.elem_of_ids in Hin as (l & Hl & Hid).
  unfold mark_complete. destruct (list_find _ _) as [[i l0]|] eqn:Hf.
  - split; [done|]. apply ValueFacts.on_disk_save.
  - apply list_find_None in Hf. rewrite Forall_forall in Hf.
    by destruct (Hf l Hl).
Qed.

Lemma mark_complete_not_found now id (s : state) :
  id ∉ ids s -> mark_complete now id s = (false, s).
Proof.
  intros Hnot. unfold mark_complete.
  destruct (list_find _ _) as [[i l0]|] eqn:Hf; [|done].
  apply list_find_Some in Hf as (Hi & Hid0 & _).
  destruct Hnot. apply StoreFacts.elem_of_ids. exists l0. split; [|done].
  by eapply list_elem_of_lookup_2.
Qed.

(** The open tasks of the store, as [list_tasks] orders them. *)
Lemma values_list_tasks (s : state) :
  deref s <$> list_tasks None s
  = sort_by Task.sort_key Task.key_ltb
      (filter (fun t => Task.completed t = None) (values s)).
Proof.
  unfold list_tasks, sort_tasks, values.
  rewrite (sort_by_fmap Task.sort_key Task.key_ltb (deref s)). f_equal.
  rewrite <- (ValueFacts.filter_fmap_comm (deref s)
               (fun t => Task.completed t = None)).
  f_equal. apply list_filter_iff. intros l.
  apply ListingFacts.is_completed_false.
Qed.

Lemma truthy_int_Some id : id <> 0 -> truthy_int (Some id) = true.
Proof. intros Hne. simpl. by apply negb_true_iff, Z.eqb_neq. Qed.

End WithPickle.
End MainFacts.

Section MainRuns.
Import Tasks Main.
Context {pk : Pickle}.

(** X17: when the backing file cannot be decoded, every run ends with
    the exception, whatever the options, even with none: nothing is
    printed and the file is left as it is. *)
Theorem main_corrupt_store (help : list string) (clock : nat -> datetime)
    (a : args) (files : gmap string blob) (b : blob) :
  files !! todo = Some b -> pickle_load b = None ->
  main help clock a files = mkResult [] (Some UnpicklingError) files.
Proof.
  intros Hf Hb. unfold main, init, load_tasks. by rewrite Hf, Hb.
Qed.

(** X18: a run without [--add], [--delete] and [--done] (or with their
    values empty or 0) leaves the file system as it found it: listing,
    querying, reporting and the help text write nothing. *)
Theorem main_read_only (help : list string) (clock : nat -> datetime)
    (a : args) (files : gmap string blob) :
  Task.truthy (arg_add a) = false ->
  truthy_int (arg_delete a) = false ->
  truthy_int (arg_done a) = false ->
  files_after (main help clock a files) = files.
Proof.
  intros Ha Hd Hc. unfold main.
  destruct (init todo files) as [s|e] eqn:Hi; [|done].
  apply ValueFacts.init_values in Hi as (_ & _ & Hf & _).
  rewrite Ha, Hd, Hc.
  destruct (arg_list a); [done|].
  destruct (truthy_list (arg_query a)); [done|].
  destruct (arg_report a); done.
Qed.

(** X19: [--add] on a readable store prints the new id, the number of
    stored tasks plus one, and leaves a file that holds the stored tasks
    followed by the new task. *)
Theorem main_add (help : list string) (clock : nat -> datetime) (a : args)
    (files : gmap string blob) (ts : list Task.t) (task : Task.t) :
  load_tasks todo files = Ok ts ->
  Task.truthy (arg_add a) = true ->
  Task.init (clock 0%nat) (Z.of_nat (length ts) + 1)
    (default EmptyString (arg_add a)) (arg_priority a) (arg_due a)
  = Ok task ->
  printed (main help clock a files)
  = ["Created task " +:+ Format.str (Z.of_nat (length ts) + 1)] /\
  raised (main help clock a files) = None /\
  load_tasks todo (files_after (main help clock a files))
  = Ok (ts ++ [task]).
Proof.
  intros Hl Ha Hinit.
  destruct (MainFacts.init_loaded files ts Hl)
    as (s & Hi & Hv & Hp & Hf & [Hwf Hnd] & Hlen).
  unfold main. rewrite Hi, Ha. rewrite <- Hlen in Hinit.
  destruct (ValueFacts.add_task_values _ _ _ _ s task Hwf Hinit)
    as (Hid & _ & Hdisk).
  unfold on_disk in Hdisk.
  destruct (add_task _ _ _ _ s) as [[id|e] s'] eqn:Hadd; simpl in *; [|done].
  injection Hid as ->. rewrite Hlen. split; [done|]. split; [done|].
  assert (file_path s' = todo) as Hp'.
  { pose proof (ValueFacts.step_file_path (clock 0%nat)
                  (AddTask (default EmptyString (arg_add a)) (arg_priority a)
                     (arg_due a)) s) as Hs.
    simpl in Hs. rewrite Hadd in Hs. simpl in Hs. congruence. }
  rewrite <- Hp', Hdisk. by rewrite Hv.
Qed.

(** X20: [--add] with a due-date text, of ASCII characters, that
    [strptime] rejects ends with [ValueError]: nothing is printed and the
    file system is left as it was, the backing file not even created. *)
Theorem main_add_malformed (help : list string) (clock : nat -> datetime)
    (a : args) (files : gmap string blob) (ts : list Task.t) (due : string) :
  load_tasks todo files = Ok ts ->
  Task.truthy (arg_add a) = true ->
  arg_due a = Some due -> due <> EmptyString ->
  Text.is_ascii due = true ->
  Datetime.strptime_mdY due = None ->
  main help clock a files = mkResult [] (Some ValueError) files.
Proof.
  intros Hl Ha Hdue Hne _ Hp.
  destruct (MainFacts.init_loaded files ts Hl) as (s & Hi & _ & _ & Hf & _).
  unfold main, add_task. rewrite Hi, Ha, Hdue.
  destruct due as [|c due]; [done|].
  by rewrite StoreFacts.init_malformed, Hf.
Qed.

(** X21: [--delete id] on a readable store always prints
    [Deleted task id], whether or not a task had the id, and leaves a file
    that holds the stored tasks without those of that id, in the same
    order. *)
Theorem main_delete (help : list string) (clock : nat -> datetime) (a : args)
    (files : gmap string blob) (ts : list Task.t) (id : Z) :
  load_tasks todo files = Ok ts ->
  Task.truthy (arg_add a) = false ->
  arg_delete a = Some id -> id <> 0 ->
  printed (main help clock a files) = ["Deleted task " +:+ Format.str id] /\
  raised (main help clock a files) = None /\
  load_tasks todo (files_after (main help clock a files))
  = Ok (filter (fun t => Task.task_id t <> id) ts).
Proof.
  intros Hl Ha Hd Hne.
  destruct (MainFacts.init_loaded files ts Hl) as (s & Hi & Hv & Hp & _).
  unfold main. rewrite Hi, Ha, Hd, (MainFacts.truthy_int_Some id Hne).
  cbn [default printed raised files_after]. split; [done|]. split; [done|].
  pose proof (ValueFacts.on_disk_save
                (mkState (file_path s)
                   (filter (fun l => Task.task_id (deref s l) <> id) (tasks s))
                   (heap s) (fs s))) as Hdisk.
  unfold on_disk in Hdisk. simpl in Hdisk. rewrite Hp in Hdisk.
  unfold delete_task. simpl. rewrite Hp. rewrite Hdisk.
  f_equal. rewrite <- Hv. apply (ValueFacts.values_delete_task id s).
Qed.

(** X22: [--done id] on a readable store: when a stored task has the id
    it prints [Completed task id] and leaves a file in which the first
    such task is completed at the time of the call and all others are as
    before; when none has it, it prints [Task id not found] and writes
    nothing. *)
Theorem main_done (help : list string) (clock : nat -> datetime) (a : args)
    (files : gmap string blob) (ts : list Task.t) (id : Z) :
  load_tasks todo files = Ok ts ->
  Task.truthy (arg_add a) = false ->
  truthy_int (arg_delete a) = false ->
  arg_done a = Some id -> id <> 0 ->
  raised (main help clock a files) = None /\
  (id ∈ Task.task_id <$> ts ->
     printed (main help clock a files)
     = ["Completed task " +:+ Format.str id] /\
     load_tasks todo (files_after (main help clock a files))
     = Ok (mark_first (clock 0%nat) id ts)) /\
  (id ∉ Task.task_id <$> ts ->
     printed (main help clock a files)
     = ["Task " +:+ Format.str id +:+ " not found"] /\
     files_after (main help clock a files) = files).
Proof.
  intros Hl Ha Hd Hc Hne.
  destruct (MainFacts.init_loaded files ts Hl)
    as (s & Hi & Hv & Hp & Hf & [Hwf Hnd] & _).
  assert (ids s = Task.task_id <$> ts) as Hids by (unfold ids; by rewrite Hv).
  unfold main. rewrite Hi, Ha, Hd, Hc, (MainFacts.truthy_int_Some id Hne).
  cbn [default from_option Datatypes.id]. cbv zeta. rewrite <- Hids.
  destruct (decide (id ∈ ids s)) as [Hin|Hnot].
  - destruct (MainFacts.mark_complete_found (clock 0%nat) id s Hin)
      as [Hr Hdisk].
    pose proof (ValueFacts.values_mark_complete (clock 0%nat) id s Hnd) as Hm.
    pose proof (ValueFacts.step_file_path (clock 0%nat) (MarkComplete id) s)
      as Hp'.
    cbn [step] in Hp'. unfold on_disk in Hdisk.
    destruct (mark_complete (clock 0%nat) id s) as [r s'] eqn:Hmc.
    cbn [fst snd] in Hr, Hdisk, Hm, Hp'. subst r.
    cbn [printed raised files_after].
    split; [done|]. split; [|done].
    intros _. split; [done|]. congruence.
  - rewrite (MainFacts.mark_complete_not_found _ _ _ Hnot). simpl.
    split; [done|]. split; [done|]. by intros _.
Qed.

(** X23: an option whose value is false ([--add] with an empty text,
    [--delete 0], [--done 0]) is passed over as if it had not been given:
    the run goes on to the next option, or to the help text. *)
Theorem main_falsy_options (help : list string) (clock : nat -> datetime)
    (a : args) (files : gmap string blob) :
  main help clock (normalise a) files = main help clock a files.
Proof.
  unfold main. destruct (init todo files) as [s|e]; [|done].
  destruct a as [add prio due del don lst qry rep]. unfold normalise. simpl.
  destruct add as [[|c add]|]; try done;
    destruct del as [[|pd|pd]|]; try done;
    destruct don as [[|pn|pn]|]; try done;
    destruct lst; try done;
    destruct qry as [[|q qs]|]; done.
Qed.

(** X24: on stored tasks with ASCII names and years of four digits,
    [--list] prints the two lines of its heading and then one row for each
    stored task that is not completed, in the order of the stable sort by
    due date (none last) and decreasing priority, the row number [k] made
    of that task with the clock as read for it; [--report] prints its own
    heading and one row for each stored task in the same order. *)
Theorem main_table_lines (help : list string) (clock : nat -> datetime)
    (a : args) (files : gmap string blob) (ts : list Task.t) :
  load_tasks todo files = Ok ts ->
  Forall plain ts ->
  Task.truthy (arg_add a) = false ->
  truthy_int (arg_delete a) = false ->
  truthy_int (arg_done a) = false ->
  (arg_list a = true ->
     printed (main help clock a files)
     = ["ID   Age  Due Date   Priority   Task";
        "--   ---  --------   --------   ----"]
       ++ imap (fun k t => list_row (clock k) t)
            (sort_by Task.sort_key Task.key_ltb
               (filter (fun t => Task.completed t = None) ts))) /\
  (arg_list a = false -> truthy_list (arg_query a) = false ->
   arg_report a = true ->
     printed (main help clock a files)
     = ["ID   Age  Due Date   Priority   Task                Created                       Completed";
        "--   ---  --------   --------   ----                ---------------------------   -------------------------"]
       ++ imap (fun k t => report_row (clock k) t)
            (sort_by Task.sort_key Task.key_ltb ts)).
Proof.
  intros Hl _ Ha Hd Hc.
  destruct (MainFacts.init_loaded files ts Hl)
    as (s & Hi & Hv & _ & _ & _ & _).
  unfold main. rewrite Hi, Ha, Hd, Hc. split.
  - intros ->. cbn [printed]. unfold list_header. f_equal.
    rewrite <- Hv, <- (MainFacts.values_list_tasks s).
    by rewrite imap_fmap.
  - intros -> -> ->. cbn [printed generate_report]. unfold report_header.
    f_equal. rewrite <- Hv. unfold values.
    rewrite <- (sort_by_fmap Task.sort_key Task.key_ltb (deref s)).
    by rewrite imap_fmap.
Qed.

End MainRuns.

(** * The further statements on concrete stores and command lines *)

Section ConcreteRuns.
Import Tasks Main.

Ltac by_compute :=
  match goal with
  | |- ?P => apply (bool_decide_unpack P); vm_compute; exact I
  end.

Lemma ids_after_adds_witness :
  ids (run three_adds fresh_store) = [1; 2; 3].
Proof.
  destruct (IdFacts.ids_after_adds three_adds fresh_store) as [Hids _].
  - apply IdFacts.empty_well_formed.
  - repeat constructor; vm_compute; eauto.
  - rewrite Hids. reflexivity.
Defined.

Lemma delete_task_unique_witness :
  S (length (tasks (delete_task 2 sort_example)))
  = length (tasks sort_example).
Proof.
  assert (ids sort_example = [1; 2; 3]) as Hids by (vm_compute; reflexivity).
  apply (IdFacts.delete_task_unique 2 sort_example); rewrite Hids.
  - by_compute.
  - right. left.
Defined.

Lemma delete_task_absent_witness :
  tasks (delete_task 7 sort_example) = tasks sort_example.
Proof.
  assert (ids sort_example = [1; 2; 3]) as Hids by (vm_compute; reflexivity).
  apply (IdFacts.delete_task_absent 7 sort_example). rewrite Hids.
  by_compute.
Defined.

Lemma mark_complete_unlists_witness :
  exists l0, l0 ∈ tasks sort_example /\
    forall l, l ∈ list_tasks None (mark_complete (clock 12) 2 sort_example).2
      <-> l ∈ list_tasks None sort_example /\ l <> l0.
Proof.
  destruct (mark_complete_unlists (clock 12) 2 sort_example None)
    as (l0 & Hl0 & _ & Hl).
  - assert (ids sort_example = [1; 2; 3]) as -> by (vm_compute; reflexivity).
    right. left.
  - by exists l0.
Defined.

Lemma shadowed_task_never_completed_witness :
  deref reused 3%nat = Task.mk 3 "d" 1 (clock 11) None None /\
  deref (run two_marks reused) 3%nat = deref reused 3%nat.
Proof.
  split; [vm_compute; reflexivity|].
  apply (shadowed_task_never_completed two_marks reused 1 2 2%nat 3%nat).
  - assert (tasks reused = [0; 2; 3]%nat) as -> by (vm_compute; reflexivity).
    by_compute.
  - vm_compute. reflexivity.
  - vm_compute. reflexivity.
  - lia.
  - vm_compute. reflexivity.
  - repeat constructor.
Defined.

Lemma store_never_shares_witness : no_sharing (run reuse_ops three_store).
Proof.
  apply (store_never_shares todo three_files three_store reuse_ops).
  vm_compute. reflexivity.
Defined.

Lemma reopen_after_run_witness :
  exists s', init todo (fs reused) = Ok s' /\ values s' = values reused.
Proof.
  apply (reopen_after_run reuse_ops fresh_store).
  - vm_compute. reflexivity.
  - repeat constructor.
Defined.

Lemma reopen_after_run_perm_witness :
  exists s',
    init todo (fs (run [(clock 12, GenerateReport)] sort_example)) = Ok s' /\
    values s' ≡ₚ values (run [(clock 12, GenerateReport)] sort_example).
Proof.
  apply (reopen_after_run_perm [(clock 12, GenerateReport)] sort_example).
  vm_compute. reflexivity.
Defined.

Lemma clock_valid h : 0 <= h < 24 -> Timedelta.valid (clock h).
Proof.
  intros Hh. unfold Timedelta.valid, clock. simpl.
  assert (Datetime.days_in_month 2024 12 = 31) as -> by reflexivity. lia.
Qed.

Lemma age_nonneg_iff_witness :
  0 <= Task.age (clock 12) (Task.mk 1 "a" 1 (clock 9) None None).
Proof.
  apply (age_nonneg_iff (clock 12) (Task.mk 1 "a" 1 (clock 9) None None)).
  - apply clock_valid. lia.
  - apply clock_valid. lia.
  - vm_compute. discriminate.
Defined.

Lemma age_monotone_witness :
  Task.age (clock 9) (Task.mk 1 "a" 1 christmas None None)
  <= Task.age (clock 12) (Task.mk 1 "a" 1 christmas None None).
Proof.
  apply age_monotone.
  - apply clock_valid. lia.
  - apply clock_valid. lia.
  - vm_compute. discriminate.
Defined.

Lemma age_same_day_witness :
  Task.age (clock 23) (Task.mk 1 "a" 1 (clock 0) None None) = 0.
Proof.
  apply age_same_day; try reflexivity.
  - apply clock_valid. lia.
  - apply clock_valid. lia.
  - vm_compute. discriminate.
Defined.

Lemma init_due_date_valid_witness : Timedelta.valid christmas.
Proof.
  apply (init_due_date_valid (clock 9) 1 "Buy milk" 2 (Some "12/25/2025")
           (Task.mk 1 "Buy milk" 2 (clock 9) (Some christmas) None)
           christmas); vm_compute; reflexivity.
Defined.

Lemma strptime_strftime_witness :
  Format.strftime_mdY christmas = "12/25/2025" /\
  Datetime.strptime_mdY (Format.strftime_mdY christmas) = Some christmas.
Proof.
  split; [vm_compute; reflexivity|].
  apply strptime_strftime; try reflexivity.
  - unfold Timedelta.valid, christmas. simpl.
    assert (Datetime.days_in_month 2025 12 = 31) as -> by reflexivity. lia.
  - simpl. lia.
Defined.

Lemma main_corrupt_store_witness :
  main usage noon no_args corrupt_files
  = mkResult [] (Some UnpicklingError) corrupt_files.
Proof.
  apply (main_corrupt_store usage noon no_args corrupt_files garbage);
    vm_compute; reflexivity.
Defined.

Lemma main_read_only_witness :
  files_after (main usage noon report_args three_files) = three_files.
Proof. apply main_read_only; reflexivity. Defined.

Lemma main_add_witness :
  printed (main usage noon add_args three_files) = ["Created task 4"] /\
  load_tasks todo (files_after (main usage noon add_args three_files))
  = Ok (three_tasks
        ++ [Task.mk 4 "Buy milk" 2 (clock 12) (Some christmas) None]).
Proof.
  destruct (main_add usage noon add_args three_files three_tasks
              (Task.mk 4 "Buy milk" 2 (clock 12) (Some christmas) None))
    as (Hp & _ & Hl); try (vm_compute; reflexivity).
  split; [|exact Hl]. rewrite Hp. vm_compute. reflexivity.
Defined.

Lemma main_add_malformed_witness :
  main usage noon bad_due_args three_files
  = mkResult [] (Some ValueError) three_files.
Proof.
  apply (main_add_malformed usage noon bad_due_args three_files three_tasks
           "2025-12-25"); try (vm_compute; reflexivity).
  discriminate.
Defined.

Lemma main_delete_witness :
  printed (main usage noon delete_args three_files) = ["Deleted task 2"] /\
  load_tasks todo (files_after (main usage noon delete_args three_files))
  = Ok (filter (fun t => Task.task_id t <> 2) three_tasks).
Proof.
  destruct (main_delete usage noon delete_args three_files three_tasks 2)
    as (Hp & _ & Hl); try (vm_compute; reflexivity); [lia|].
  split; [|exact Hl]. rewrite Hp. vm_compute. reflexivity.
Defined.

Lemma main_done_witness :
  printed (main usage noon done_args three_files) = ["Completed task 3"] /\
  load_tasks todo (files_after (main usage noon done_args three_files))
  = Ok (mark_first (clock 12) 3 three_tasks).
Proof.
  destruct (main_done usage noon done_args three_files three_tasks 3)
    as (_ & Hfound & _); try (vm_compute; reflexivity); [lia|].
  destruct Hfound as [Hp Hl].
  - assert (Task.task_id <$> three_tasks = [1; 2; 3]) as ->
      by (vm_compute; reflexivity).
    right. right. left.
  - split; [|exact Hl]. rewrite Hp. vm_compute. reflexivity.
Defined.

Lemma three_tasks_plain : Forall plain three_tasks.
Proof.
  repeat constructor; simpl; try lia; intros d [= <-]; simpl; lia.
Qed.

Lemma main_table_lines_witness :
  printed (main usage noon list_args three_files)
  = ["ID   Age  Due Date   Priority   Task";
     "--   ---  --------   --------   ----";
     "1    0    01/01/2025 1         rent";
     "3    0    -          3         call Bob"] /\
  printed (main usage noon report_args three_files)
  = ["ID   Age  Due Date   Priority   Task                Created                       Completed";
     "--   ---  --------   --------   ----                ---------------------------   -------------------------";
     "2    0    01/01/2025 3         Taxes                Sun Dec 01 09:00:00  2024      Sun Dec 01 10:00:00  2024";
     "1    0    01/01/2025 1         rent                 Sun Dec 01 09:00:00  2024      -";
     "3    0    -          3         call Bob             Sun Dec 01 09:00:00  2024      -"].
Proof.
  destruct (main_table_lines usage noon list_args three_files three_tasks)
    as [Hlist _];
    [vm_compute; reflexivity|apply three_tasks_plain
    |reflexivity|reflexivity|reflexivity|].
  destruct (main_table_lines usage noon report_args three_files three_tasks)
    as [_ Hreport];
    [vm_compute; reflexivity|apply three_tasks_plain
    |reflexivity|reflexivity|reflexivity|].
  rewrite Hlist, Hreport by reflexivity. split; vm_compute; reflexivity.
Defined.

(** The run of [--delete 0] on three stored tasks prints the help text. *)
Example delete_zero_prints_help :
  printed (main usage noon
             (mkArgs None 1 None (Some 0) None false None false) three_files)
  = usage.
Proof. vm_compute. reflexivity. Qed.

End ConcreteRuns.
